(** * crawlerverse (Python SDK): the game runner and the error taxonomy

    A shallow embedding of
    - [crawlerverse/models.py]     : observations, outcomes, responses, [GameResult];
    - [crawlerverse/exceptions.py] : the exception hierarchy;
    - [crawlerverse/_base_client.py] : [map_error_response];
    - [crawlerverse/runner.py]     : [run_game] and [async_run_game].

    Python values of type [Any] decoded from a response body are JSON values;
    a [dict] is a [gmap]; a Python [int] is a [Z]; a [str] is held as the
    bytes of its UTF-8 encoding.  A call that may raise
    returns a [res]; the runner threads the state of everything outside it
    (server, agent closure, callback, clock) through a small state, error and
    trace monad. *)

From Stdlib Require Import ZArith Ascii String List.
From stdpp Require Import gmap strings list pretty.

Set Warnings "-register-all".
Open Scope string_scope.
Open Scope list_scope.
Open Scope Z_scope.

(* ===================================================================== *)
(** ** [types.py] *)

Inductive Direction : Type :=
  | NORTH | SOUTH | EAST | WEST | NORTHEAST | NORTHWEST | SOUTHEAST | SOUTHWEST.

Inductive TileType : Type :=
  | FLOOR | WALL | STAIRS_DOWN | STAIRS_UP | DOOR | PORTAL.

(* ===================================================================== *)
(** ** JSON values: what [response.json()] yields and what [Any] holds *)

(** Numbers with a fractional part are not represented: no code below looks
    inside a number except to test it for truth. *)
Inductive json : Type :=
  | JNull
  | JBool (b : bool)
  | JInt (n : Z)
  | JStr (s : string)
  | JList (l : list json)
  | JDict (m : gmap string json).

(** Python's truth value of a decoded JSON value, as tested by [if x:]. *)
Definition truthy (v : json) : bool :=
  match v with
  | JNull => false
  | JBool b => b
  | JInt n => negb (n =? 0)
  | JStr s => negb (String.eqb s "")
  | JList l => match l with [] => false | _ :: _ => true end
  | JDict m => match map_to_list m with [] => false | _ :: _ => true end
  end.

(** [d.get(key, default)]; [d.get(key)] is [dict_get d key JNull]. *)
Definition dict_get (d : gmap string json) (key : string) (dflt : json) : json :=
  default dflt (d !! key).

(* ===================================================================== *)
(** ** [models.py] *)

Record Monster : Type := {
  monster_type : string;
  monster_hp : Z;
  monster_max_hp : Z
}.

Record VisibleTile : Type := {
  tile_x : Z;
  tile_y : Z;
  tile_type : TileType;
  tile_items : list string;
  tile_monster : option Monster
}.

Record InventoryItem : Type := {
  item_id : string;
  item_type : string;
  item_name : string
}.

Record Player : Type := {
  position : Z * Z;
  hp : Z;
  max_hp : Z;
  attack : Z;
  defense : Z;
  equipped_weapon : option string;
  equipped_armor : option string
}.

Record Observation : Type := {
  turn : Z;
  floor : Z;
  player : Player;
  inventory : list InventoryItem;
  visible_tiles : list VisibleTile;
  messages : list string
}.

Inductive CompletedResult : Type := victory | death.
Inductive AbandonedReason : Type := timeout | disconnected.

(** [Outcome]: the union discriminated by [status]. *)
Inductive Outcome : Type :=
  | InProgressOutcome
  | CompletedOutcome (result : CompletedResult) (floor turns : Z)
  | AbandonedOutcome (reason : AbandonedReason) (floor turns : Z).

(** [isinstance(o, InProgressOutcome)] *)
Definition is_InProgressOutcome (o : Outcome) : bool :=
  match o with
  | InProgressOutcome => true
  | _ => false
  end.

Record CreateGameResponse : Type := {
  created_game_id : string;
  created_observation : Observation;
  created_spectator_url : string
}.

Record ActionResponse : Type := {
  action_observation : Observation;
  action_outcome : Outcome
}.

Record GameStateResponse : Type := {
  state_observation : Observation;
  state_outcome : Outcome
}.

Record GameResult : Type := {
  game_id : string;
  spectator_url : string;
  outcome : Outcome
}.

(* ===================================================================== *)
(** ** [actions.py] *)

Inductive Action : Type :=
  | Move (direction : Direction) (reasoning : option string)
  | Attack (direction : Direction) (reasoning : option string)
  | Wait (reasoning : option string)
  | Pickup (reasoning : option string)
  | Drop (item_type : string) (reasoning : option string)
  | Use (item_type : string) (reasoning : option string)
  | Equip (item_type : string) (reasoning : option string)
  | EnterPortal (reasoning : option string)
  | RangedAttack (direction : Direction) (distance : Z) (reasoning : option string).

(* ===================================================================== *)
(** ** [exceptions.py], and the other exceptions the modelled code meets *)

(** The seven [CrawlerAPIError] classes keep their fields.  [message],
    [details] and [code] hold whatever the body held, hence [json].
    [RuntimeError] keeps its [__cause__]; [ValueError] is what [int] and
    [time.sleep] raise, [OverflowError] what the two sleeps raise on a
    length they cannot hold; [PydanticValidationError] is pydantic's
    [ValidationError]; [OtherException] is any other [Exception].
    [KeyboardInterrupt], [SystemExit] and the [CancelledError] of asyncio
    are no [Exception]: an [except Exception] clause does not catch
    them. *)
Inductive exn : Type :=
  | CrawlerAPIError (status_code : Z) (message : json)
  | AuthenticationError (status_code : Z) (message : json)
  | ForbiddenError (status_code : Z) (message : json)
  | NotFoundError (status_code : Z) (message : json)
  | ValidationError (status_code : Z) (message : json) (details : json)
  | GameOverError (status_code : Z) (message : json) (outcome : Outcome)
  | InvalidActionError (status_code : Z) (message : json) (code : json)
  | RateLimitError (status_code : Z) (message : json) (retry_after : Z)
  | RuntimeError (message : string) (cause : option exn)
  | ValueError (message : string)
  | OverflowError (message : string)
  | PydanticValidationError (title : string)
  | OtherException (name : string) (message : string)
  | KeyboardInterrupt
  | SystemExit (code : Z)
  | CancelledError.

(** [isinstance(e, Exception)] *)
Definition is_Exception (e : exn) : bool :=
  match e with
  | KeyboardInterrupt | SystemExit _ | CancelledError => false
  | _ => true
  end.

(** The result of a call: it returns a value or raises. *)
Inductive res (A : Type) : Type :=
  | Ok (a : A)
  | Raise (e : exn).
Arguments Ok {A} a.
Arguments Raise {A} e.

(** [GameResult(game_id=.., spectator_url=.., outcome=..)]: the model is
    validated on construction, and [outcome] is declared
    [CompletedOutcome | AbandonedOutcome]. *)
Definition GameResult_init (game_id spectator_url : string) (outcome : Outcome)
  : res GameResult :=
  if is_InProgressOutcome outcome
  then Raise (PydanticValidationError "GameResult")
  else Ok {| game_id := game_id; spectator_url := spectator_url; outcome := outcome |}.

(* ===================================================================== *)
(** ** Python's [int(s)] on a [str], base ten *)

(** The code points of a text in UTF-8; [None] stands where the bytes are
    not UTF-8, which no [str] gives. *)
Fixpoint code_points (pending : nat) (acc : N) (s : string)
  : list (option N) :=
  match s with
  | EmptyString => match pending with O => [] | _ => [None] end
  | String b rest =>
      let n := N_of_ascii b in
      match pending with
      | O =>
          if (n <? 128)%N then Some n :: code_points 0 0 rest
          else if (n <? 194)%N then None :: code_points 0 0 rest
          else if (n <? 224)%N then code_points 1 (n - 192) rest
          else if (n <? 240)%N then code_points 2 (n - 224) rest
          else if (n <? 248)%N then code_points 3 (n - 240) rest
          else None :: code_points 0 0 rest
      | S pending' =>
          if ((128 <=? n) && (n <? 192))%N
          then
            let acc := (acc * 64 + (n - 128))%N in
            match pending' with
            | O => Some acc :: code_points 0 0 rest
            | _ => code_points pending' acc rest
            end
          else None :: code_points 0 0 rest
      end
  end.

(** [Py_UNICODE_ISSPACE] above 127. *)
Definition unicode_space (c : N) : bool :=
  ((c =? 133) || (c =? 160) || (c =? 5760)
   || ((8192 <=? c) && (c <=? 8202))
   || (c =? 8232) || (c =? 8233) || (c =? 8239) || (c =? 8287)
   || (c =? 12288))%N.

(** The zeros of the decimal digits above 127, each the first of ten
    digits in a row (Unicode 14.0, the version of CPython 3.11). *)
Definition decimal_zeros : list N :=
  [1632; 1776; 1984; 2406; 2534; 2662; 2790; 2918; 3046; 3174; 3302; 3430;
   3558; 3664; 3792; 3872; 4160; 4240; 6112; 6160; 6470; 6608; 6784; 6800;
   6992; 7088; 7232; 7248; 42528; 43216; 43264; 43472; 43504; 43600; 44016;
   65296; 66720; 68912; 69734; 69872; 69942; 70096; 70384; 70736; 70864;
   71248; 71360; 71472; 71904; 72016; 72784; 73040; 73120; 92768; 92864;
   93008; 120782; 120792; 120802; 120812; 120822; 123200; 123632; 125264;
   130032]%N.

(** [Py_UNICODE_TODECIMAL] above 127. *)
Definition unicode_decimal (c : N) : option N :=
  (fun zero => (c - zero)%N)
    <$> find (fun zero => ((zero <=? c) && (c <? zero + 10))%N) decimal_zeros.

(** What [int] parses ([_PyUnicode_TransformDecimalAndSpaceToASCII]): the
    characters up to 127 are kept; above, white space becomes a space and
    a decimal digit its ASCII digit, and at anything else the text is cut
    and ends in a question mark. *)
Fixpoint to_ascii (cs : list (option N)) : string :=
  match cs with
  | [] => EmptyString
  | Some c :: rest =>
      if (c <? 128)%N then String (ascii_of_N c) (to_ascii rest)
      else if unicode_space c then String " "%char (to_ascii rest)
      else match unicode_decimal c with
           | Some d => String (ascii_of_N (48 + d)) (to_ascii rest)
           | None => "?"
           end
  | None :: _ => "?"
  end.

(** [Py_ISSPACE] *)
Definition is_space (c : ascii) : bool :=
  let n := N_of_ascii c in
  ((9 <=? n) && (n <=? 13) || (n =? 32))%N.

Fixpoint lstrip (s : string) : string :=
  match s with
  | String c s' => if is_space c then lstrip s' else s
  | EmptyString => EmptyString
  end.

Definition strip (s : string) : string :=
  String.rev (lstrip (String.rev (lstrip s))).

Definition digit_of (c : ascii) : option Z :=
  let n := Z.of_N (N_of_ascii c) in
  if (48 <=? n) && (n <=? 57) then Some (n - 48) else None.

(** The digits at the front of a text, with their number, their value and
    what follows them; [None] when two underscores follow each other or
    an underscore comes last. *)
Fixpoint scan_digits (after_underscore : bool) (digits : nat) (value : Z)
    (s : string) : option (nat * Z * string) :=
  match s with
  | EmptyString =>
      if after_underscore then None else Some (digits, value, EmptyString)
  | String c s' =>
      match digit_of c with
      | Some d => scan_digits false (S digits) (10 * value + d) s'
      | None =>
          if Ascii.eqb c "_"%char
          then if after_underscore then None
               else scan_digits true digits value s'
          else if after_underscore then None
               else Some (digits, value, s)
      end
  end.

(** [sys.get_int_max_str_digits()], as it is set when Python starts. *)
Definition int_max_str_digits : nat := 4300.

(** The messages of the two [ValueError]s.  Python writes the literal as
    [repr] does and cuts it at 200 characters; that is the text between
    single quotes for a printable ASCII literal that is shorter and has
    neither quote nor backslash. *)
Definition invalid_literal (s : string) : exn :=
  ValueError ("invalid literal for int() with base 10: '" +:+ s +:+ "'").

Definition too_many_digits (digits : nat) : exn :=
  ValueError ("Exceeds the limit (4300 digits) for integer string conversion: "
              +:+ "value has " +:+ pretty digits
              +:+ " digits; use sys.set_int_max_str_digits() to increase the limit").

(** [int(s)]: white space around is dropped, a sign may come first, then
    decimal digits with single underscores between them; more than 4300
    digits, and anything else, raise [ValueError]. *)
Definition int_of_str (s : string) : res Z :=
  let t := strip (to_ascii (code_points 0 0 s)) in
  let '(negative, t) :=
    match t with
    | String "+"%char t' => (false, t')
    | String "-"%char t' => (true, t')
    | _ => (false, t)
    end in
  match t with
  | String "_"%char _ => Raise (invalid_literal s)
  | _ =>
      match scan_digits false 0 0 t with
      | None => Raise (invalid_literal s)
      | Some (O, _, _) => Raise (invalid_literal s)
      | Some (digits, value, rest) =>
          if (int_max_str_digits <? digits)%nat
          then Raise (too_many_digits digits)
          else
            match rest with
            | EmptyString => Ok (if negative then - value else value)
            | _ => Raise (invalid_literal s)
            end
      end
  end.

(* ===================================================================== *)
(** ** [_base_client.py] *)

(** [NoReturn]: a function of this result type cannot return a value. *)
Definition NoReturn : Type := Empty_set.

Section BaseClient.

(** [_outcome_adapter.validate_python]: pydantic's validation of a decoded
    value against the [Outcome] union.  It yields the typed outcome or
    raises; which values it accepts is pydantic's business. *)
Variable validate_python : json -> res Outcome.

Definition parse_outcome (data : json) : res Outcome :=
  validate_python data.

Definition map_error_response
    (status_code : Z) (body : gmap string json) (headers : gmap string string)
  : res NoReturn :=
  let message := dict_get body "error" (JStr "Unknown error") in
  if status_code =? 400 then
    Raise (ValidationError 400 message (dict_get body "details" JNull))
  else if status_code =? 401 then
    Raise (AuthenticationError 401 message)
  else if status_code =? 403 then
    Raise (ForbiddenError 403 message)
  else if status_code =? 404 then
    Raise (NotFoundError 404 message)
  else if status_code =? 409 then
    let outcome_data := dict_get body "outcome" JNull in
    if truthy outcome_data then
      match parse_outcome outcome_data with
      | Ok outcome => Raise (GameOverError 409 message outcome)
      | Raise e => Raise e
      end
    else Raise (CrawlerAPIError 409 message)
  else if status_code =? 422 then
    Raise (InvalidActionError 422 message (dict_get body "code" (JStr "UNKNOWN")))
  else if status_code =? 429 then
    match int_of_str (default "60" (headers !! "retry-after")) with
    | Ok retry_after => Raise (RateLimitError 429 message retry_after)
    | Raise e => Raise e
    end
  else Raise (CrawlerAPIError status_code message).

End BaseClient.

(* ===================================================================== *)
(** ** [runner.py]: effects *)

Inductive sleep_primitive : Type := time_sleep_call | asyncio_sleep_call.

(** What the runner does to the outside, in order, each call with what it
    answered.  The [logger] calls only report and are left out. *)
Inductive event : Type :=
  | EvGamesGet (game_id : string) (r : res GameStateResponse)
  | EvGamesCreate (model_id : option string) (r : res CreateGameResponse)
  | EvAgentFn (observation : Observation) (r : res Action)
  | EvGamesAction (game_id : string) (action : Action) (r : res ActionResponse)
  | EvOnStep (observation : Observation) (action : Action) (r : res unit)
  | EvSleep (prim : sleep_primitive) (secs : Z) (r : res unit).

(** How a [while True] iteration ends: [continue] (or falling off the end of
    the body) with the loop variables, or [return]. *)
Inductive loop_ctl : Type :=
  | Continue (observation : Observation) (consecutive_invalid : Z)
  | Return (result : GameResult).

Section Runner.

(** The state of everything outside the runner. *)
Context {W : Type}.

(** The wait of [secs >= 0] seconds, as the platform does it: it returns
    when the time has passed, or raises (an [OSError] where the deadline is
    beyond the platform's clock, or what interrupts the wait). *)
Variable elapse : Z -> W -> res unit * W.

(** A computation: from a state to a result, a state and the calls made. *)
Definition M (A : Type) : Type := W -> res A * W * list event.

Definition ret {A} (a : A) : M A := fun w => (Ok a, w, []).
Definition raise {A} (e : exn) : M A := fun w => (Raise e, w, []).
Definition lift {A} (r : res A) : M A := fun w => (r, w, []).

Definition bind {A B} (m : M A) (k : A -> M B) : M B :=
  fun w =>
    match m w with
    | (Ok a, w1, t1) => let '(r, w2, t2) := k a w1 in (r, w2, t1 ++ t2)
    | (Raise e, w1, t1) => (Raise e, w1, t1)
    end.

(** [try: m], the exception, if any, being handed to the [except] clauses. *)
Definition attempt {A} (m : M A) : M (res A) :=
  fun w => let '(r, w1, t1) := m w in (Ok r, w1, t1).

Notation "x <- m ;; k" := (bind m (fun x => k))
  (at level 100, m at next level, right associativity).
Notation "m ;;; k" := (bind m (fun _ => k))
  (at level 100, right associativity).

(** [client.games], for [CrawlerClient] and for [AsyncCrawlerClient] (whose
    methods are awaited). *)
Record CrawlerClient : Type := {
  games_get : string -> W -> res GameStateResponse * W;
  games_create : option string -> W -> res CreateGameResponse * W;
  games_action : string -> Action -> W -> res ActionResponse * W
}.

Record AsyncCrawlerClient : Type := {
  async_games_get : string -> W -> res GameStateResponse * W;
  async_games_create : option string -> W -> res CreateGameResponse * W;
  async_games_action : string -> Action -> W -> res ActionResponse * W
}.

Definition agent : Type := Observation -> W -> res Action * W.
Definition step_callback : Type := Observation -> Action -> W -> res unit * W.

Definition call {A} (f : W -> res A * W) (ev : res A -> event) : M A :=
  fun w => let '(r, w1) := f w in (r, w1, [ev r]).

(** [time.sleep] holds the length as a signed 64-bit count of
    nanoseconds. *)
Definition fits_PyTime_t (secs : Z) : bool :=
  (- 2 ^ 63 <=? secs * 10 ^ 9) && (secs * 10 ^ 9 <=? 2 ^ 63 - 1).

(** What [time.sleep(secs)] answers on an [int]: [OverflowError] for a
    length it cannot hold, then [ValueError] for a negative one; otherwise
    it waits. *)
Definition time_sleep_answer (secs : Z) (w : W) : res unit * W :=
  if negb (fits_PyTime_t secs)
  then (Raise (OverflowError "timestamp too large to convert to C _PyTime_t"),
        w)
  else if secs <? 0
  then (Raise (ValueError "sleep length must be non-negative"), w)
  else elapse secs w.

Definition time_sleep (secs : Z) : M unit :=
  call (time_sleep_answer secs) (EvSleep time_sleep_call secs).

(** A positive [int] has a [float] when it rounds to less than
    [2 ^ 1024]. *)
Definition fits_float (n : Z) : bool := n <? 2 ^ 1024 - 2 ^ 970.

(** What [await asyncio.sleep(delay)] answers on an [int]: a [delay <= 0]
    only yields to the event loop; otherwise the timer is set at
    [loop.time() + delay], [OverflowError] for a delay that has no
    [float]. *)
Definition asyncio_sleep_answer (delay : Z) (w : W) : res unit * W :=
  if delay <=? 0 then elapse 0 w
  else if negb (fits_float delay)
  then (Raise (OverflowError "int too large to convert to float"), w)
  else elapse delay w.

Definition asyncio_sleep (delay : Z) : M unit :=
  call (asyncio_sleep_answer delay) (EvSleep asyncio_sleep_call delay).

(** [f"Agent function failed [game={game_id}, turn={observation.turn}]"] *)
Definition agent_failed_message (game_id : string) (observation : Observation)
  : string :=
  "Agent function failed [game=" +:+ game_id +:+ ", turn="
    +:+ pretty (turn observation) +:+ "]".

(** *** [run_game] *)

(** The body of [while True]. *)
Definition iteration
    (client : CrawlerClient) (agent_fn : agent)
    (game_id spectator_url : string)
    (max_invalid_actions : Z) (on_step : option step_callback)
    (observation : Observation) (consecutive_invalid : Z) : M loop_ctl :=
  action <- (r <- attempt (call (agent_fn observation) (EvAgentFn observation)) ;;
             match r with
             | Ok action => ret action
             | Raise e =>
                 if is_Exception e
                 then raise (RuntimeError
                               (agent_failed_message game_id observation)
                               (Some e))
                 else raise e
             end) ;;
  r <- attempt (call (games_action client game_id action)
                 (EvGamesAction game_id action)) ;;
  match r with
  | Raise (InvalidActionError _ _ _ as e) =>
      let consecutive_invalid := consecutive_invalid + 1 in
      if consecutive_invalid >=? max_invalid_actions
      then raise e
      else ret (Continue observation consecutive_invalid)
  | Raise (RateLimitError _ _ retry_after) =>
      time_sleep retry_after ;;;
      ret (Continue observation consecutive_invalid)
  | Raise (GameOverError _ _ outcome) =>
      g <- lift (GameResult_init game_id spectator_url outcome) ;;
      ret (Return g)
  | Raise e => raise e
  | Ok result =>
      let consecutive_invalid := 0 in
      match on_step with
      | Some f => call (f observation action) (EvOnStep observation action)
      | None => ret tt
      end ;;;
      let observation := action_observation result in
      if negb (is_InProgressOutcome (action_outcome result))
      then g <- lift (GameResult_init game_id spectator_url
                                      (action_outcome result)) ;;
           ret (Return g)
      else ret (Continue observation consecutive_invalid)
  end.

(** [while True], unrolled [fuel] times; [None]: still looping. *)
Fixpoint loop (fuel : nat)
    (client : CrawlerClient) (agent_fn : agent)
    (game_id spectator_url : string)
    (max_invalid_actions : Z) (on_step : option step_callback)
    (observation : Observation) (consecutive_invalid : Z)
  : M (option GameResult) :=
  match fuel with
  | O => ret None
  | S fuel' =>
      c <- iteration client agent_fn game_id spectator_url
                     max_invalid_actions on_step
                     observation consecutive_invalid ;;
      match c with
      | Return g => ret (Some g)
      | Continue observation consecutive_invalid =>
          loop fuel' client agent_fn game_id spectator_url
               max_invalid_actions on_step observation consecutive_invalid
      end
  end.

Definition run_game (fuel : nat)
    (client : CrawlerClient) (agent_fn : agent)
    (model_id : option string) (game_id : option string)
    (max_invalid_actions : Z) (on_step : option step_callback)
  : M (option GameResult) :=
  match game_id with
  | Some game_id =>
      state <- call (games_get client game_id) (EvGamesGet game_id) ;;
      let observation := state_observation state in
      let spectator_url := "" in
      if negb (is_InProgressOutcome (state_outcome state))
      then g <- lift (GameResult_init game_id spectator_url
                                      (state_outcome state)) ;;
           ret (Some g)
      else loop fuel client agent_fn game_id spectator_url
                max_invalid_actions on_step observation 0
  | None =>
      game <- call (games_create client model_id) (EvGamesCreate model_id) ;;
      let game_id := created_game_id game in
      let observation := created_observation game in
      let spectator_url := created_spectator_url game in
      loop fuel client agent_fn game_id spectator_url
           max_invalid_actions on_step observation 0
  end.

(** *** [async_run_game] *)

Definition async_iteration
    (client : AsyncCrawlerClient) (agent_fn : agent)
    (game_id spectator_url : string)
    (max_invalid_actions : Z) (on_step : option step_callback)
    (observation : Observation) (consecutive_invalid : Z) : M loop_ctl :=
  action <- (r <- attempt (call (agent_fn observation) (EvAgentFn observation)) ;;
             match r with
             | Ok action => ret action
             | Raise e =>
                 if is_Exception e
                 then raise (RuntimeError
                               (agent_failed_message game_id observation)
                               (Some e))
                 else raise e
             end) ;;
  r <- attempt (call (async_games_action client game_id action)
                 (EvGamesAction game_id action)) ;;
  match r with
  | Raise (InvalidActionError _ _ _ as e) =>
      let consecutive_invalid := consecutive_invalid + 1 in
      if consecutive_invalid >=? max_invalid_actions
      then raise e
      else ret (Continue observation consecutive_invalid)
  | Raise (RateLimitError _ _ retry_after) =>
      asyncio_sleep retry_after ;;;
      ret (Continue observation consecutive_invalid)
  | Raise (GameOverError _ _ outcome) =>
      g <- lift (GameResult_init game_id spectator_url outcome) ;;
      ret (Return g)
  | Raise e => raise e
  | Ok result =>
      let consecutive_invalid := 0 in
      match on_step with
      | Some f => call (f observation action) (EvOnStep observation action)
      | None => ret tt
      end ;;;
      let observation := action_observation result in
      if negb (is_InProgressOutcome (action_outcome result))
      then g <- lift (GameResult_init game_id spectator_url
                                      (action_outcome result)) ;;
           ret (Return g)
      else ret (Continue observation consecutive_invalid)
  end.

Fixpoint async_loop (fuel : nat)
    (client : AsyncCrawlerClient) (agent_fn : agent)
    (game_id spectator_url : string)
    (max_invalid_actions : Z) (on_step : option step_callback)
    (observation : Observation) (consecutive_invalid : Z)
  : M (option GameResult) :=
  match fuel with
  | O => ret None
  | S fuel' =>
      c <- async_iteration client agent_fn game_id spectator_url
                           max_invalid_actions on_step
                           observation consecutive_invalid ;;
      match c with
      | Return g => ret (Some g)
      | Continue observation consecutive_invalid =>
          async_loop fuel' client agent_fn game_id spectator_url
                     max_invalid_actions on_step
                     observation consecutive_invalid
      end
  end.

Definition async_run_game (fuel : nat)
    (client : AsyncCrawlerClient) (agent_fn : agent)
    (model_id : option string) (game_id : option string)
    (max_invalid_actions : Z) (on_step : option step_callback)
  : M (option GameResult) :=
  match game_id with
  | Some game_id =>
      state <- call (async_games_get client game_id) (EvGamesGet game_id) ;;
      let observation := state_observation state in
      let spectator_url := "" in
      if negb (is_InProgressOutcome (state_outcome state))
      then g <- lift (GameResult_init game_id spectator_url
                                      (state_outcome state)) ;;
           ret (Some g)
      else async_loop fuel client agent_fn game_id spectator_url
                      max_invalid_actions on_step observation 0
  | None =>
      game <- call (async_games_create client model_id)
                   (EvGamesCreate model_id) ;;
      let game_id := created_game_id game in
      let observation := created_observation game in
      let spectator_url := created_spectator_url game in
      async_loop fuel client agent_fn game_id spectator_url
                 max_invalid_actions on_step observation 0
  end.

End Runner.

(** [max_invalid_actions: int = 5] *)
Definition default_max_invalid_actions : Z := 5.

(* ===================================================================== *)
(** ** Observations on a trace *)

(** The observations the decision function was called with, in order. *)
Fixpoint agent_calls (tr : list event) : list Observation :=
  match tr with
  | [] => []
  | EvAgentFn o _ :: tr' => o :: agent_calls tr'
  | _ :: tr' => agent_calls tr'
  end.

(** The arguments of the step-callback's invocations, in order. *)
Fixpoint on_step_calls (tr : list event) : list (Observation * Action) :=
  match tr with
  | [] => []
  | EvOnStep o a _ :: tr' => (o, a) :: on_step_calls tr'
  | _ :: tr' => on_step_calls tr'
  end.

(** The successful submits, in order: each with the observation the decision
    function had just been given and the action it produced. *)
Fixpoint successful_turns (tr : list event) : list (Observation * Action) :=
  match tr with
  | [] => []
  | EvAgentFn o _ :: tr' =>
      match tr' with
      | EvGamesAction _ a (Ok _) :: _ => (o, a) :: successful_turns tr'
      | _ => successful_turns tr'
      end
  | _ :: tr' => successful_turns tr'
  end.

(** The submits made, in order. *)
Fixpoint submits (tr : list event) : list (string * Action) :=
  match tr with
  | [] => []
  | EvGamesAction g a _ :: tr' => (g, a) :: submits tr'
  | _ :: tr' => submits tr'
  end.

(** The submits that succeeded, in order. *)
Fixpoint successful_submits (tr : list event) : list (string * Action) :=
  match tr with
  | [] => []
  | EvGamesAction g a (Ok _) :: tr' => (g, a) :: successful_submits tr'
  | _ :: tr' => successful_submits tr'
  end.

(** Every [retry_after] of a submit of the trace rejected as rate limited
    is a length [time.sleep] can hold and wait for: from 0 to 9223372036. *)
Definition retry_after_in_range (tr : list event) : bool :=
  forallb (fun ev =>
             match ev with
             | EvGamesAction _ _ (Raise (RateLimitError _ _ retry_after)) =>
                 (0 <=? retry_after) && (retry_after <=? 9223372036)
             | _ => true
             end) tr.

(** A trace of [run_game] read as one of [async_run_game]: only the sleep
    primitive differs. *)
Definition as_async_event (ev : event) : event :=
  match ev with
  | EvSleep _ secs r => EvSleep asyncio_sleep_call secs r
  | _ => ev
  end.

Definition as_async {A W : Type} (x : res A * W * list event)
  : res A * W * list event :=
  let '(r, w, tr) := x in (r, w, map as_async_event tr).

(** A computation after the calls [tr] have been made. *)
Definition after {A W : Type} (tr : list event) (x : res A * W * list event)
  : res A * W * list event :=
  let '(r, w, tr') := x in (r, w, tr ++ tr').

(** The step-callback, when there is one, returns normally from state [w]
    leaving state [w'], the call being recorded as [tr]. *)
Definition on_step_returns {W : Type}
    (on_step : option (Observation -> Action -> W -> res unit * W))
    (o : Observation) (a : Action) (w w' : W) (tr : list event) : Prop :=
  match on_step with
  | None => w' = w /\ tr = []
  | Some f => f o a w = (Ok tt, w') /\ tr = [EvOnStep o a (Ok tt)]
  end.

(** From observation [o] and state [w], the next [n] turns succeed with an
    outcome in progress and the one after them succeeds with the outcome
    [final], leaving state [w_end]; the step-callback returns every time. *)
Fixpoint successful_submits_until {W : Type} (n : nat)
    (client : CrawlerClient) (agent_fn : agent)
    (on_step : option (Observation -> Action -> W -> res unit * W))
    (game_id : string) (o : Observation) (w : W)
    (final : Outcome) (w_end : W) : Prop :=
  exists a w1 result w2 w3 tr_cb,
    agent_fn o w = (Ok a, w1) /\
    games_action client game_id a w1 = (Ok result, w2) /\
    on_step_returns on_step o a w2 w3 tr_cb /\
    match n with
    | O =>
        is_InProgressOutcome (action_outcome result) = false /\
        action_outcome result = final /\ w3 = w_end
    | S n' =>
        is_InProgressOutcome (action_outcome result) = true /\
        successful_submits_until n' client agent_fn on_step game_id
                                 (action_observation result) w3 final w_end
    end.

(** The next [n] decisions made on [o] from state [w] are all submitted and
    all rejected as invalid actions. *)
Fixpoint invalid_rejections {W : Type} (n : nat)
    (client : CrawlerClient) (agent_fn : agent)
    (game_id : string) (o : Observation) (w : W) : Prop :=
  match n with
  | O => True
  | S n' =>
      exists a w1 s m c w2,
        agent_fn o w = (Ok a, w1) /\
        games_action client game_id a w1 = (Raise (InvalidActionError s m c), w2) /\
        invalid_rejections n' client agent_fn game_id o w2
  end.

(* ===================================================================== *)
(** ** A scripted service, agent and callback, for concrete runs *)

(** A validator for the three declared outcome models over decoded JSON:
    a dict whose [status] selects the model and whose other declared fields
    are present with their declared types. *)
Definition get_str (m : gmap string json) (k : string) : option string :=
  match m !! k with Some (JStr s) => Some s | _ => None end.

Definition get_int (m : gmap string json) (k : string) : option Z :=
  match m !! k with Some (JInt n) => Some n | _ => None end.

Definition outcome_adapter (data : json) : res Outcome :=
  let invalid := Raise (PydanticValidationError "Outcome") in
  match data with
  | JDict m =>
      match get_str m "status" with
      | Some status =>
          if String.eqb status "in_progress" then Ok InProgressOutcome
          else if String.eqb status "completed" then
            match get_str m "result", get_int m "floor", get_int m "turns" with
            | Some r, Some f, Some t =>
                if String.eqb r "victory" then Ok (CompletedOutcome victory f t)
                else if String.eqb r "death" then Ok (CompletedOutcome death f t)
                else invalid
            | _, _, _ => invalid
            end
          else if String.eqb status "abandoned" then
            match get_str m "reason", get_int m "floor", get_int m "turns" with
            | Some r, Some f, Some t =>
                if String.eqb r "timeout" then Ok (AbandonedOutcome timeout f t)
                else if String.eqb r "disconnected"
                     then Ok (AbandonedOutcome disconnected f t)
                else invalid
            | _, _, _ => invalid
            end
          else invalid
      | None => invalid
      end
  | _ => invalid
  end.

(** What the service sends back: a decoded success body, or an error
    response (status, body, headers) that [map_error_response] turns into
    an exception. *)
Inductive reply (A : Type) : Type :=
  | Decoded (a : A)
  | ErrorResponse (status_code : Z) (body : gmap string json)
                  (headers : gmap string string).
Arguments Decoded {A} a.
Arguments ErrorResponse {A} status_code body headers.

Definition answer {A : Type} (r : reply A) : res A :=
  match r with
  | Decoded a => Ok a
  | ErrorResponse status_code body headers =>
      match map_error_response outcome_adapter status_code body headers with
      | Raise e => Raise e
      | Ok impossible => match impossible with end
      end
  end.

Record World : Type := {
  fetches : list (reply GameStateResponse);
  creations : list (reply CreateGameResponse);
  replies : list (reply ActionResponse);
  decisions : list (res Action);
  step_results : list (res unit);
  clock : Z
}.

Definition exhausted {A : Type} : res A :=
  Raise (OtherException "AssertionError" "no scripted reply left").

Definition scripted_client : CrawlerClient (W := World) := {|
  games_get := fun _ w =>
    match fetches w with
    | r :: rest =>
        (answer r,
         {| fetches := rest; creations := creations w; replies := replies w;
            decisions := decisions w; step_results := step_results w;
            clock := clock w |})
    | [] => (exhausted, w)
    end;
  games_create := fun _ w =>
    match creations w with
    | r :: rest =>
        (answer r,
         {| fetches := fetches w; creations := rest; replies := replies w;
            decisions := decisions w; step_results := step_results w;
            clock := clock w |})
    | [] => (exhausted, w)
    end;
  games_action := fun _ _ w =>
    match replies w with
    | r :: rest =>
        (answer r,
         {| fetches := fetches w; creations := creations w; replies := rest;
            decisions := decisions w; step_results := step_results w;
            clock := clock w |})
    | [] => (exhausted, w)
    end
|}.

Definition scripted_async_client : AsyncCrawlerClient (W := World) := {|
  async_games_get := games_get scripted_client;
  async_games_create := games_create scripted_client;
  async_games_action := games_action scripted_client
|}.

(** Plays the scripted decisions, then waits for ever. *)
Definition scripted_agent : agent (W := World) := fun _ w =>
  match decisions w with
  | r :: rest =>
      (r,
       {| fetches := fetches w; creations := creations w; replies := replies w;
          decisions := rest; step_results := step_results w; clock := clock w |})
  | [] => (Ok (Wait None), w)
  end.

Definition scripted_on_step : step_callback (W := World) := fun _ _ w =>
  match step_results w with
  | r :: rest =>
      (r,
       {| fetches := fetches w; creations := creations w; replies := replies w;
          decisions := decisions w; step_results := rest; clock := clock w |})
  | [] => (Ok tt, w)
  end.

Definition later (secs : Z) (w : World) : World :=
  {| fetches := fetches w; creations := creations w; replies := replies w;
     decisions := decisions w; step_results := step_results w;
     clock := clock w + secs |}.

(** A wait that always returns. *)
Definition tick (secs : Z) (w : World) : res unit * World :=
  (Ok tt, later secs w).

(** The observation of the repository's tests, at a given turn. *)
Definition observation_at (n : Z) : Observation := {|
  turn := n;
  floor := 1;
  player := {| position := (5, 5); hp := 20; max_hp := 20; attack := 5;
               defense := 3; equipped_weapon := None; equipped_armor := None |};
  inventory := [];
  visible_tiles := [ {| tile_x := 5; tile_y := 5; tile_type := FLOOR;
                        tile_items := []; tile_monster := None |} ];
  messages := []
|}.

Definition game_1 : reply CreateGameResponse :=
  Decoded {| created_game_id := "game-1";
             created_observation := observation_at 1;
             created_spectator_url := "https://crawlerver.se/spectate/game-1" |}.

Definition in_progress (n : Z) : reply ActionResponse :=
  Decoded {| action_observation := observation_at n;
             action_outcome := InProgressOutcome |}.

Definition completed_victory (n : Z) : reply ActionResponse :=
  Decoded {| action_observation := observation_at n;
             action_outcome := CompletedOutcome victory 5 100 |}.

Definition invalid_action : reply ActionResponse :=
  ErrorResponse 422
    (<["error" := JStr "Can't move"]> (<["code" := JStr "MOVE_BLOCKED"]> ∅)) ∅.

Definition rate_limited (retry_after : string) : reply ActionResponse :=
  ErrorResponse 429
    (<["error" := JStr "Rate limited"]> ∅) (<["retry-after" := retry_after]> ∅).

Definition conflict (outcome : json) : reply ActionResponse :=
  ErrorResponse 409
    (<["error" := JStr "Game ended"]> (<["outcome" := outcome]> ∅)) ∅.

Definition death_payload : json :=
  JDict (<["status" := JStr "completed"]> (<["result" := JStr "death"]>
        (<["floor" := JInt 3]> (<["turns" := JInt 47]> ∅)))).

Definition in_progress_payload : json :=
  JDict (<["status" := JStr "in_progress"]> ∅).

(** A fresh game whose submits are answered by [rs]. *)
Definition new_game (rs : list (reply ActionResponse))
    (ds : list (res Action)) (ss : list (res unit)) : World :=
  {| fetches := []; creations := [game_1]; replies := rs;
     decisions := ds; step_results := ss; clock := 0 |}.

(** A game to resume, whose state is fetched as [state]. *)
Definition old_game (state : GameStateResponse)
    (rs : list (reply ActionResponse)) : World :=
  {| fetches := [Decoded state]; creations := []; replies := rs;
     decisions := []; step_results := []; clock := 0 |}.

(** A game already created, [rs] being the answers still to come. *)
Definition mid_game (rs : list (reply ActionResponse))
    (ds : list (res Action)) (ss : list (res unit)) : World :=
  {| fetches := []; creations := []; replies := rs;
     decisions := ds; step_results := ss; clock := 0 |}.

Definition spectate_game_1 : string := "https://crawlerver.se/spectate/game-1".

(** [run_game(client, agent, on_step=on_step)] on a fresh scripted game. *)
Definition play (fuel : nat) (on_step : option (step_callback (W := World)))
    (w : World) : res (option GameResult) * World * list event :=
  run_game tick fuel scripted_client scripted_agent None None
           default_max_invalid_actions on_step w.

Definition async_play (fuel : nat)
    (on_step : option (step_callback (W := World)))
    (w : World) : res (option GameResult) * World * list event :=
  async_run_game tick fuel scripted_async_client scripted_agent None None
                 default_max_invalid_actions on_step w.

(** The loop of game-1, at its first turn. *)
Definition turns (fuel : nat) (on_step : option (step_callback (W := World)))
    (w : World) : res (option GameResult) * World * list event :=
  loop tick fuel scripted_client scripted_agent "game-1" spectate_game_1
       default_max_invalid_actions on_step (observation_at 1) 0 w.

Definition done_state : GameStateResponse :=
  {| state_observation := observation_at 100;
     state_outcome := CompletedOutcome victory 5 100 |}.

Definition callback_failed : exn := RuntimeError "Callback failed" None.
Definition agent_crashed : exn := OtherException "ValueError" "Agent crashed".

(* ===================================================================== *)
(** ** Further observations on a trace *)

(** The actions the decision function returned, in order. *)
Fixpoint agent_outputs (tr : list event) : list Action :=
  match tr with
  | [] => []
  | EvAgentFn _ (Ok a) :: tr' => a :: agent_outputs tr'
  | _ :: tr' => agent_outputs tr'
  end.

(** The sleeps, in order: which primitive, and for how long. *)
Fixpoint sleeps (tr : list event) : list (sleep_primitive * Z) :=
  match tr with
  | [] => []
  | EvSleep prim secs _ :: tr' => (prim, secs) :: sleeps tr'
  | _ :: tr' => sleeps tr'
  end.

(** The retry-after of the submits rejected as rate limited, in order. *)
Fixpoint rate_limits (tr : list event) : list Z :=
  match tr with
  | [] => []
  | EvGamesAction _ _ (Raise (RateLimitError _ _ secs)) :: tr' =>
      secs :: rate_limits tr'
  | _ :: tr' => rate_limits tr'
  end.

(** The game responses to a create call, in order. *)
Fixpoint created_games (tr : list event) : list CreateGameResponse :=
  match tr with
  | [] => []
  | EvGamesCreate _ (Ok game) :: tr' => game :: created_games tr'
  | _ :: tr' => created_games tr'
  end.

(** The exceptions of a submit that have an [except] clause in the loop. *)
Definition caught_by_loop (e : exn) : bool :=
  match e with
  | InvalidActionError _ _ _ | RateLimitError _ _ _ | GameOverError _ _ _ =>
      true
  | _ => false
  end.

(** How a submit is rejected without ending the turn. *)
Inductive rejection : Type := as_invalid_action | as_rate_limited.

(** From state [w], the next decisions on [o] are all submitted and
    rejected, one after the other, as [kinds] says; a rate limit carries a
    retry-after that [time.sleep] can hold, from 0 to 9223372036, and the
    wait, which is [elapse], returns. *)
Fixpoint rejected_turns {W : Type} (elapse : Z -> W -> res unit * W)
    (kinds : list rejection)
    (client : CrawlerClient) (agent_fn : agent)
    (game_id : string) (o : Observation) (w : W) : Prop :=
  match kinds with
  | [] => True
  | kind :: kinds' =>
      exists a w1 s m w2,
        agent_fn o w = (Ok a, w1) /\
        match kind with
        | as_invalid_action =>
            exists c,
              games_action client game_id a w1
              = (Raise (InvalidActionError s m c), w2) /\
              rejected_turns elapse kinds' client agent_fn game_id o w2
        | as_rate_limited =>
            exists secs,
              games_action client game_id a w1
              = (Raise (RateLimitError s m secs), w2) /\
              0 <= secs <= 9223372036 /\
              exists w3,
                elapse secs w2 = (Ok tt, w3) /\
                rejected_turns elapse kinds' client agent_fn game_id o w3
        end
  end.

(** The number of invalid-action rejections among [kinds]. *)
Fixpoint invalid_among (kinds : list rejection) : nat :=
  match kinds with
  | [] => 0
  | as_invalid_action :: kinds' => S (invalid_among kinds')
  | as_rate_limited :: kinds' => invalid_among kinds'
  end.

(** What holds of the calls of a stretch of the loop for game [gid], made
    with the sleep primitive [prim], and of its result [x]. *)
Definition turn_invariant (prim : sleep_primitive) (gid url : string)
    (t : list event) : Prop :=
  submits t = map (pair gid) (agent_outputs t)
  /\ map snd (sleeps t) = rate_limits t
  /\ map fst (sleeps t) = repeat prim (length (rate_limits t))
  /\ created_games t = [].

Definition result_invariant (gid url : string) (g : GameResult) : Prop :=
  is_InProgressOutcome (outcome g) = false
  /\ game_id g = gid /\ spectator_url g = url.

(* ===================================================================== *)
(** ** [_base_client.py]: the key and the headers *)

Definition ENV_KEY : string := "CRAWLERVERSE_API_KEY".
Definition DEFAULT_BASE_URL : string := "https://crawlerver.se/api/agent".

(** [crawlerverse.__version__] *)
Definition crawlerverse_version : string := "0.2.1".

(** [resolve_api_key(api_key)], [environ] being [os.environ]. *)
Definition resolve_api_key (environ : gmap string string)
    (api_key : option string) : res string :=
  match api_key with
  | Some key => Ok key
  | None =>
      match environ !! ENV_KEY with
      | Some env_key => Ok env_key
      | None =>
          Raise (AuthenticationError 401
                   (JStr ("No API key provided. Pass api_key= or set "
                            +:+ ENV_KEY +:+ " environment variable.")))
      end
  end.

Definition build_headers (api_key : string) : gmap string string :=
  <["Authorization" := "Bearer " +:+ api_key]>
    (<["User-Agent" := "crawlerverse-python/" +:+ crawlerverse_version]>
       (<["Content-Type" := "application/json"]> ∅)).

(* ===================================================================== *)
(** ** [actions.py]: what an action is sent as *)

(** The value of a [Direction] member. *)
Definition Direction_value (d : Direction) : string :=
  match d with
  | NORTH => "north"
  | SOUTH => "south"
  | EAST => "east"
  | WEST => "west"
  | NORTHEAST => "northeast"
  | NORTHWEST => "northwest"
  | SOUTHEAST => "southeast"
  | SOUTHWEST => "southwest"
  end.

(** [reasoning: str | None = None], left out when it is [None]. *)
Definition with_reasoning (reasoning : option string)
    (fields : gmap string json) : gmap string json :=
  match reasoning with
  | Some text => <["reasoning" := JStr text]> fields
  | None => fields
  end.

(** [action.model_dump(by_alias=True, exclude_none=True)], as the JSON
    object [httpx] sends: fields under their camelCase alias, a direction
    as its value. *)
Definition model_dump (a : Action) : gmap string json :=
  match a with
  | Move d reasoning =>
      with_reasoning reasoning
        (<["action" := JStr "move"]>
           (<["direction" := JStr (Direction_value d)]> ∅))
  | Attack d reasoning =>
      with_reasoning reasoning
        (<["action" := JStr "attack"]>
           (<["direction" := JStr (Direction_value d)]> ∅))
  | Wait reasoning =>
      with_reasoning reasoning (<["action" := JStr "wait"]> ∅)
  | Pickup reasoning =>
      with_reasoning reasoning (<["action" := JStr "pickup"]> ∅)
  | Drop item reasoning =>
      with_reasoning reasoning
        (<["action" := JStr "drop"]> (<["itemType" := JStr item]> ∅))
  | Use item reasoning =>
      with_reasoning reasoning
        (<["action" := JStr "use"]> (<["itemType" := JStr item]> ∅))
  | Equip item reasoning =>
      with_reasoning reasoning
        (<["action" := JStr "equip"]> (<["itemType" := JStr item]> ∅))
  | EnterPortal reasoning =>
      with_reasoning reasoning (<["action" := JStr "enter_portal"]> ∅)
  | RangedAttack d dist reasoning =>
      with_reasoning reasoning
        (<["action" := JStr "ranged_attack"]>
           (<["direction" := JStr (Direction_value d)]>
              (<["distance" := JInt dist]> ∅)))
  end.

(* ===================================================================== *)
(** ** [client.py] *)

(** [base_url.rstrip("/")] *)
Fixpoint rstrip_slash (s : string) : string :=
  match s with
  | EmptyString => EmptyString
  | String ch s' =>
      match rstrip_slash s' with
      | EmptyString =>
          if Ascii.eqb ch "/" then EmptyString else String ch EmptyString
      | kept => String ch kept
      end
  end.

(** What [self._http.request(method, url, json=json, params=params)] is
    given. *)
Record Request : Type := {
  request_method : string;
  request_url : string;
  request_json : option (gmap string json);
  request_params : option (gmap string json)
}.

(** What it returns.  [response_json] is the value of [response.json()],
    [None] when the body is not JSON and the call raises. *)
Record Response : Type := {
  response_status_code : Z;
  response_json : option json;
  response_text : string;
  response_headers : gmap string string
}.

(** What [CrawlerClient.__init__] keeps: [self._base_url] and the headers
    its [httpx.Client] is built with. *)
Record Session : Type := {
  session_base_url : string;
  session_headers : gmap string string
}.

(** [CrawlerClient.__init__].  [httpx_Client] is
    [httpx.Client(headers=.., timeout=.., follow_redirects=True)]: the
    library builds its client from the headers or raises (it refuses
    header values it cannot encode); which ones is its business. *)
Definition CrawlerClient_init (httpx_Client : gmap string string -> res unit)
    (environ : gmap string string)
    (api_key : option string) (base_url : string) : res Session :=
  match resolve_api_key environ api_key with
  | Ok resolved_key =>
      let base_url := rstrip_slash base_url in
      match httpx_Client (build_headers resolved_key) with
      | Ok _ =>
          Ok {| session_base_url := base_url;
                session_headers := build_headers resolved_key |}
      | Raise e => Raise e
      end
  | Raise e => Raise e
  end.

(** [json.JSONDecodeError], a [ValueError]. *)
Definition json_decode_error : exn := ValueError "Expecting value".

(** The name of the type of a decoded value. *)
Definition type_name (v : json) : string :=
  match v with
  | JNull => "NoneType"
  | JBool _ => "bool"
  | JInt _ => "int"
  | JStr _ => "str"
  | JList _ => "list"
  | JDict _ => "dict"
  end.

(** [body.get] on a value that is no dict. *)
Definition no_attribute_get (v : json) : exn :=
  OtherException "AttributeError"
    ("'" +:+ type_name v +:+ "' object has no attribute 'get'").

(** [POST /games]: [modelId] only when a model is given. *)
Definition games_create_body (model_id : option string) : gmap string json :=
  match model_id with
  | Some model => <["modelId" := JStr model]> ∅
  | None => ∅
  end.

Section HttpClient.

Context {W : Type}.

(** The [httpx.Client]: built with default headers, it sends a request and
    hands the response over, or raises. *)
Variable httpx_request :
  gmap string string -> Request -> W -> res Response * W.

(** pydantic's validators: [_outcome_adapter.validate_python] and the
    [model_validate] of the three responses. *)
Variable validate_python : json -> res Outcome.
Variable validate_CreateGameResponse : json -> res CreateGameResponse.
Variable validate_GameStateResponse : json -> res GameStateResponse.
Variable validate_ActionResponse : json -> res ActionResponse.

Definition _request (session : Session) (method path : string)
    (json_body params : option (gmap string json)) (w : W) : res json * W :=
  let url := session_base_url session +:+ path in
  match httpx_request (session_headers session)
          {| request_method := method; request_url := url;
             request_json := json_body; request_params := params |} w with
  | (Raise e, w1) => (Raise e, w1)
  | (Ok response, w1) =>
      if response_status_code response >=? 400 then
        let error_body :=
          match response_json response with
          | Some decoded => decoded
          | None => JDict (<["error" := JStr (response_text response)]> ∅)
          end in
        match error_body with
        | JDict fields =>
            match map_error_response validate_python
                    (response_status_code response) fields
                    (response_headers response) with
            | Raise e => (Raise e, w1)
            | Ok impossible => match impossible with end
            end
        | other => (Raise (no_attribute_get other), w1)
        end
      else
        match response_json response with
        | Some decoded => (Ok decoded, w1)
        | None => (Raise json_decode_error, w1)
        end
  end.

(** [X.model_validate(self._client._request(...))] *)
Definition validated {A : Type} (validate : json -> res A)
    (answered : res json * W) : res A * W :=
  match answered with
  | (Ok data, w1) => (validate data, w1)
  | (Raise e, w1) => (Raise e, w1)
  end.

Definition http_games_create (session : Session) (model_id : option string)
  : W -> res CreateGameResponse * W :=
  fun w =>
    validated validate_CreateGameResponse
      (_request session "POST" "/games"
                (Some (games_create_body model_id)) None w).

Definition http_games_get (session : Session) (game_id : string)
  : W -> res GameStateResponse * W :=
  fun w =>
    validated validate_GameStateResponse
      (_request session "GET" ("/games/" +:+ game_id) None None w).

Definition http_games_action (session : Session) (game_id : string)
    (action : Action) : W -> res ActionResponse * W :=
  fun w =>
    validated validate_ActionResponse
      (_request session "POST" ("/games/" +:+ game_id +:+ "/action")
                (Some (model_dump action)) None w).

(** [client.games] of a [CrawlerClient]. *)
Definition http_client (session : Session) : CrawlerClient := {|
  games_get := http_games_get session;
  games_create := http_games_create session;
  games_action := http_games_action session
|}.

End HttpClient.

(** [n] slashes. *)
Fixpoint slashes (n : nat) : string :=
  match n with
  | O => EmptyString
  | S n' => String "/" (slashes n')
  end.

(** [s[-1]], when there is one. *)
Fixpoint last_char (s : string) : option ascii :=
  match s with
  | EmptyString => None
  | String ch EmptyString => Some ch
  | String _ s' => last_char s'
  end.

(** A transport that answers with canned responses, whatever is asked. *)
Definition canned_transport (default_headers : gmap string string)
    (asked : Request) (left : list Response)
  : res Response * list Response :=
  match left with
  | response :: rest => (Ok response, rest)
  | [] => (Raise (OtherException "ConnectError" "no response left"), [])
  end.

(** A validator that accepts nothing. *)
Definition accepts_nothing {A : Type} (data : json) : res A :=
  Raise (PydanticValidationError "model").

Definition test_session : Session :=
  {| session_base_url := "https://test.example.com/api/agent";
     session_headers := build_headers "cra_test123" |}.

(** An error response whose body is not JSON. *)
Definition gateway_error (status : Z) : Response :=
  {| response_status_code := status; response_json := None;
     response_text := "<html>Bad Gateway</html>"; response_headers := ∅ |}.

(** The 422 of the tests. *)
Definition move_blocked : Response :=
  {| response_status_code := 422;
     response_json :=
       Some (JDict (<["error" := JStr "Can't move"]>
                      (<["code" := JStr "MOVE_BLOCKED"]> ∅)));
     response_text := "";
     response_headers := ∅ |}.

(** An agent that always waits, over canned responses; time changes nothing
    there. *)
Definition waiting_agent : agent (W := list Response) :=
  fun _ left => (Ok (Wait None), left).

Definition no_clock (secs : Z) (left : list Response)
  : res unit * list Response := (Ok tt, left).

(** The fields of an action: [a.action] and [a.reasoning], which every
    action has, and those only some have. *)
Definition action_name (a : Action) : string :=
  match a with
  | Move _ _ => "move"
  | Attack _ _ => "attack"
  | Wait _ => "wait"
  | Pickup _ => "pickup"
  | Drop _ _ => "drop"
  | Use _ _ => "use"
  | Equip _ _ => "equip"
  | EnterPortal _ => "enter_portal"
  | RangedAttack _ _ _ => "ranged_attack"
  end.

Definition action_reasoning (a : Action) : option string :=
  match a with
  | Move _ r | Attack _ r | Wait r | Pickup r | Drop _ r | Use _ r
  | Equip _ r | EnterPortal r | RangedAttack _ _ r => r
  end.

Definition action_direction (a : Action) : option Direction :=
  match a with
  | Move d _ | Attack d _ | RangedAttack d _ _ => Some d
  | _ => None
  end.

Definition action_distance (a : Action) : option Z :=
  match a with
  | RangedAttack _ dist _ => Some dist
  | _ => None
  end.

Definition action_item_type (a : Action) : option string :=
  match a with
  | Drop item _ | Use item _ | Equip item _ => Some item
  | _ => None
  end.

(* ===================================================================== *)
(** ** [models.py]: the queries of an [Observation] *)

(** [_DIRECTION_OFFSETS]: a dict with one key for each [Direction], so that
    [_DIRECTION_OFFSETS[direction]] never raises. *)
Definition DIRECTION_OFFSETS (direction : Direction) : Z * Z :=
  match direction with
  | NORTH => (0, -1)
  | SOUTH => (0, 1)
  | EAST => (1, 0)
  | WEST => (-1, 0)
  | NORTHEAST => (1, -1)
  | NORTHWEST => (-1, -1)
  | SOUTHEAST => (1, 1)
  | SOUTHWEST => (-1, 1)
  end.

#[global] Instance TileType_eq_dec : EqDecision TileType.
Proof. solve_decision. Defined.

Definition WALKABLE_TILES : list TileType :=
  [FLOOR; DOOR; STAIRS_DOWN; STAIRS_UP; PORTAL].

(** The loop of [tile_at]: the first tile with these coordinates. *)
Fixpoint first_tile_at (x y : Z) (tiles : list VisibleTile)
  : option VisibleTile :=
  match tiles with
  | [] => None
  | tile :: rest =>
      if (tile_x tile =? x) && (tile_y tile =? y) then Some tile
      else first_tile_at x y rest
  end.

Definition tile_at (obs : Observation) (x y : Z) : option VisibleTile :=
  first_tile_at x y (visible_tiles obs).

Definition monsters (obs : Observation) : list (VisibleTile * Monster) :=
  omap (fun tile =>
          match tile_monster tile with
          | Some monster => Some (tile, monster)
          | None => None
          end)
       (visible_tiles obs).

(** [best_dist]: [float("inf")] before the first monster, an [int] after. *)
Inductive best_distance : Type :=
  | Infinity
  | Finite (dist : Z).

(** [dist < best_dist] *)
Definition closer (dist : Z) (best_dist : best_distance) : bool :=
  match best_dist with
  | Infinity => true
  | Finite best => dist <? best
  end.

(** [abs(tile.x - px) + abs(tile.y - py)] *)
Definition manhattan (px py : Z) (tile : VisibleTile) : Z :=
  Z.abs (tile_x tile - px) + Z.abs (tile_y tile - py).

(** The loop of [nearest_monster], with its two variables. *)
Fixpoint nearest_scan (px py : Z) (found : list (VisibleTile * Monster))
    (result : option (VisibleTile * Monster)) (best_dist : best_distance)
  : option (VisibleTile * Monster) :=
  match found with
  | [] => result
  | (tile, monster) :: rest =>
      let dist := manhattan px py tile in
      if closer dist best_dist
      then nearest_scan px py rest (Some (tile, monster)) (Finite dist)
      else nearest_scan px py rest result best_dist
  end.

Definition nearest_monster (obs : Observation)
  : option (VisibleTile * Monster) :=
  let '(px, py) := position (player obs) in
  nearest_scan px py (monsters obs) None Infinity.

(** What [nearest_monster] has in hand after it has gone through [seen]. *)
Definition nearest_of (px py : Z) (seen : list (VisibleTile * Monster))
    (result : option (VisibleTile * Monster)) : Prop :=
  match result with
  | None => seen = []
  | Some pick =>
      exists before after,
        seen = before ++ pick :: after
        /\ Forall (fun other => manhattan px py pick.1 < manhattan px py other.1)
                  before
        /\ Forall (fun other => manhattan px py pick.1 <= manhattan px py other.1)
                  after
  end.

(** [tile.items if tile else []]: a tile, when there is one, is true. *)
Definition items_at_feet (obs : Observation) : list string :=
  let '(px, py) := position (player obs) in
  match tile_at obs px py with
  | Some tile => tile_items tile
  | None => []
  end.

Definition can_move (obs : Observation) (direction : Direction) : bool :=
  let '(px, py) := position (player obs) in
  let '(dx, dy) := DIRECTION_OFFSETS direction in
  match tile_at obs (px + dx) (py + dy) with
  | None => false
  | Some tile =>
      match tile_monster tile with
      | Some _ => false
      | None => bool_decide (tile_type tile ∈ WALKABLE_TILES)
      end
  end.

(* ===================================================================== *)
(** ** [examples/diagnostics.py] *)

(** [tile.type.value] *)
Definition TileType_value (tile_type : TileType) : string :=
  match tile_type with
  | FLOOR => "floor"
  | WALL => "wall"
  | STAIRS_DOWN => "stairs_down"
  | STAIRS_UP => "stairs_up"
  | DOOR => "door"
  | PORTAL => "portal"
  end.

(** The [_DIRECTION_OFFSETS] of the diagnostics, keyed by name.  A
    [Direction] is a [str] and is looked up as its value. *)
Definition diagnostics_DIRECTION_OFFSETS : gmap string (Z * Z) :=
  <["north" := (0, -1)]>
    (<["south" := (0, 1)]>
       (<["east" := (1, 0)]>
          (<["west" := (-1, 0)]>
             (<["northeast" := (1, -1)]>
                (<["northwest" := (-1, -1)]>
                   (<["southeast" := (1, 1)]>
                      (<["southwest" := (-1, 1)]> ∅))))))).

Definition TILE_CHARS : gmap string string :=
  <["wall" := "#"]>
    (<["floor" := "."]>
       (<["door" := "+"]>
          (<["stairs_down" := ">"]>
             (<["stairs_up" := "<"]>
                (<["portal" := "%"]> ∅))))).

(** [value[0]]: an [IndexError] on the empty string. *)
Definition first_char (value : string) : res string :=
  match value with
  | EmptyString => Raise (OtherException "IndexError" "string index out of range")
  | String c _ => Ok (String c EmptyString)
  end.

(** [_tile_char]; the default of [.get] is computed before the lookup. *)
Definition tile_char (tile : option VisibleTile) : res string :=
  match tile with
  | None => Ok "?"
  | Some tile =>
      match tile_monster tile with
      | Some _ => Ok "M"
      | None =>
          let value := TileType_value (tile_type tile) in
          match first_char value with
          | Raise e => Raise e
          | Ok fallback => Ok (default fallback (TILE_CHARS !! value))
          end
      end
  end.

(** [DebugTracker.on_action], the target it describes:
    [_DIRECTION_OFFSETS.get(direction, (0, 0))] and [obs.tile_at]. *)
Definition diagnosed_target (obs : Observation) (direction : Direction)
  : option VisibleTile :=
  let '(px, py) := position (player obs) in
  let '(dx, dy) :=
    default (0, 0) (diagnostics_DIRECTION_OFFSETS !! Direction_value direction) in
  tile_at obs (px + dx) (py + dy).

(** [DebugTracker._print_grid]: one cell, one row, and the five rows as
    they are printed. *)
Definition grid_cell (obs : Observation) (px py row_dy col_dx : Z)
  : res string :=
  if (col_dx =? 0) && (row_dy =? 0) then Ok " @"
  else
    match tile_char (tile_at obs (px + col_dx) (py + row_dy)) with
    | Raise e => Raise e
    | Ok c => Ok (" " +:+ c)
    end.

Fixpoint grid_row (obs : Observation) (px py row_dy : Z) (cols : list Z)
    (row : string) : res string :=
  match cols with
  | [] => Ok row
  | col_dx :: rest =>
      match grid_cell obs px py row_dy col_dx with
      | Raise e => Raise e
      | Ok cell => grid_row obs px py row_dy rest (row +:+ cell)
      end
  end.

Fixpoint grid_rows (obs : Observation) (px py : Z) (rows : list Z)
  : res (list string) :=
  match rows with
  | [] => Ok []
  | row_dy :: rest =>
      match grid_row obs px py row_dy [-2; -1; 0; 1; 2] "" with
      | Raise e => Raise e
      | Ok row =>
          match grid_rows obs px py rest with
          | Raise e => Raise e
          | Ok printed => Ok (("  [DIAG]  " +:+ row) :: printed)
          end
      end
  end.

Definition print_grid (obs : Observation) (px py : Z) : res (list string) :=
  grid_rows obs px py [-2; -1; 0; 1; 2].

(* ===================================================================== *)
(** * Properties of the runner *)

Section RunnerFacts.

Context {W : Type} (elapse : Z -> W -> res unit * W).
Variables (client : CrawlerClient (W := W)) (agent_fn : agent (W := W)).
Variables (gid url : string) (max_invalid_actions : Z).
Variable on_step : option (step_callback (W := W)).

Local Abbreviation body :=
  (iteration elapse client agent_fn gid url max_invalid_actions on_step).
Local Abbreviation looping fuel :=
  (loop elapse fuel client agent_fn gid url max_invalid_actions on_step).

Ltac step_body :=
  unfold iteration, bind, attempt, call, ret, raise, lift, time_sleep,
    GameResult_init; simpl.

(** One unrolling of [while True]. *)
Lemma loop_unroll fuel o ci w :
  looping (S fuel) o ci w =
  match body o ci w with
  | (Ok (Return g), w1, t1) => (Ok (Some g), w1, t1)
  | (Ok (Continue o' ci'), w1, t1) => after t1 (looping fuel o' ci' w1)
  | (Raise e, w1, t1) => (Raise e, w1, t1)
  end.
Proof.
  simpl. unfold bind at 1.
  destruct (body o ci w) as [[[c | e] w1] t1]; [destruct c |]; simpl.
  - unfold after. destruct (looping fuel _ _ w1) as [[r w2] t2]. reflexivity.
  - unfold ret. rewrite app_nil_r. reflexivity.
  - reflexivity.
Qed.

Lemma body_agent_raises o ci w e w1 :
  agent_fn o w = (Raise e, w1) ->
  body o ci w =
  (Raise (if is_Exception e
          then RuntimeError (agent_failed_message gid o) (Some e)
          else e),
   w1, [EvAgentFn o (Raise e)]).
Proof.
  intros Ha. step_body. rewrite Ha. destruct (is_Exception e); reflexivity.
Qed.

Lemma body_submit_ok o ci w a w1 result w2 :
  agent_fn o w = (Ok a, w1) ->
  games_action client gid a w1 = (Ok result, w2) ->
  body o ci w =
  match on_step with
  | Some f =>
      match f o a w2 with
      | (Ok _, w3) =>
          (if is_InProgressOutcome (action_outcome result)
           then Ok (Continue (action_observation result) 0)
           else Ok (Return {| game_id := gid;
                              spectator_url := url;
                              outcome := action_outcome result |}),
           w3,
           [EvAgentFn o (Ok a); EvGamesAction gid a (Ok result);
            EvOnStep o a (Ok tt)])
      | (Raise e, w3) =>
          (Raise e, w3,
           [EvAgentFn o (Ok a); EvGamesAction gid a (Ok result);
            EvOnStep o a (Raise e)])
      end
  | None =>
      (if is_InProgressOutcome (action_outcome result)
       then Ok (Continue (action_observation result) 0)
       else Ok (Return {| game_id := gid;
                          spectator_url := url;
                          outcome := action_outcome result |}),
       w2,
       [EvAgentFn o (Ok a); EvGamesAction gid a (Ok result)])
  end.
Proof.
  intros Ha Hs. step_body. rewrite Ha. simpl. rewrite Hs. simpl.
  destruct on_step as [f |]; simpl.
  - destruct (f o a w2) as [[[] | e] w3]; simpl; [| reflexivity].
    destruct (is_InProgressOutcome (action_outcome result)); reflexivity.
  - destruct (is_InProgressOutcome (action_outcome result)); reflexivity.
Qed.

(** The same, the callback having returned. *)
Lemma body_submit_ok_returns o ci w a w1 result w2 w3 tr_cb :
  agent_fn o w = (Ok a, w1) ->
  games_action client gid a w1 = (Ok result, w2) ->
  on_step_returns on_step o a w2 w3 tr_cb ->
  body o ci w =
  (if is_InProgressOutcome (action_outcome result)
   then Ok (Continue (action_observation result) 0)
   else Ok (Return {| game_id := gid; spectator_url := url;
                      outcome := action_outcome result |}),
   w3,
   [EvAgentFn o (Ok a); EvGamesAction gid a (Ok result)] ++ tr_cb).
Proof.
  intros Ha Hs Hcb. rewrite (body_submit_ok _ _ _ _ _ _ _ Ha Hs).
  unfold on_step_returns in Hcb.
  destruct on_step as [f |]; destruct Hcb as [H1 H2]; subst.
  - rewrite H1. reflexivity.
  - reflexivity.
Qed.

Lemma body_invalid_action o ci w a w1 s m c w2 :
  agent_fn o w = (Ok a, w1) ->
  games_action client gid a w1 = (Raise (InvalidActionError s m c), w2) ->
  body o ci w =
  (if ci + 1 >=? max_invalid_actions
   then Raise (InvalidActionError s m c)
   else Ok (Continue o (ci + 1)),
   w2,
   [EvAgentFn o (Ok a);
    EvGamesAction gid a (Raise (InvalidActionError s m c))]).
Proof.
  intros Ha Hs. step_body. rewrite Ha. simpl. rewrite Hs. simpl.
  destruct (ci + 1 >=? max_invalid_actions); reflexivity.
Qed.

Lemma body_rate_limit o ci w a w1 s m retry_after w2 :
  agent_fn o w = (Ok a, w1) ->
  games_action client gid a w1
    = (Raise (RateLimitError s m retry_after), w2) ->
  body o ci w =
  match time_sleep_answer elapse retry_after w2 with
  | (Ok _, w3) =>
      (Ok (Continue o ci), w3,
       [EvAgentFn o (Ok a);
        EvGamesAction gid a (Raise (RateLimitError s m retry_after));
        EvSleep time_sleep_call retry_after (Ok tt)])
  | (Raise e, w3) =>
      (Raise e, w3,
       [EvAgentFn o (Ok a);
        EvGamesAction gid a (Raise (RateLimitError s m retry_after));
        EvSleep time_sleep_call retry_after (Raise e)])
  end.
Proof.
  intros Ha Hs.
  unfold iteration, bind, attempt, call, ret, raise, lift, time_sleep.
  cbn -[time_sleep_answer]. rewrite Ha. cbn -[time_sleep_answer].
  rewrite Hs. cbn -[time_sleep_answer]. unfold call.
  destruct (time_sleep_answer elapse retry_after w2) as [[[] | e] w3];
    reflexivity.
Qed.

Lemma body_game_over o ci w a w1 s m oc w2 :
  agent_fn o w = (Ok a, w1) ->
  games_action client gid a w1 = (Raise (GameOverError s m oc), w2) ->
  body o ci w =
  (if is_InProgressOutcome oc
   then Raise (PydanticValidationError "GameResult")
   else Ok (Return {| game_id := gid; spectator_url := url;
                      outcome := oc |}),
   w2,
   [EvAgentFn o (Ok a); EvGamesAction gid a (Raise (GameOverError s m oc))]).
Proof.
  intros Ha Hs. step_body. rewrite Ha. simpl. rewrite Hs. simpl.
  destruct (is_InProgressOutcome oc); reflexivity.
Qed.

(** The first thing an iteration does is ask the decision function about
    the current observation. *)
Lemma loop_asks_agent_first fuel o ci w r w1 :
  agent_fn o w = (r, w1) ->
  exists x w' rest, looping (S fuel) o ci w = (x, w', EvAgentFn o r :: rest).
Proof.
  intros Ha. rewrite loop_unroll.
  assert (Hb : exists x w' rest, body o ci w = (x, w', EvAgentFn o r :: rest)).
  { destruct r as [a | e].
    - destruct (games_action client gid a w1) as [[result | e] w2] eqn:Hs.
      + rewrite (body_submit_ok _ _ _ _ _ _ _ Ha Hs).
        destruct on_step as [f |]; [destruct (f o a w2) as [[[] | e] w3] |];
          eauto.
      + destruct e;
          try (step_body; rewrite Ha; simpl; rewrite Hs; simpl; eauto; fail).
        * rewrite (body_game_over _ _ _ _ _ _ _ _ _ Ha Hs). eauto.
        * rewrite (body_invalid_action _ _ _ _ _ _ _ _ _ Ha Hs). eauto.
        * rewrite (body_rate_limit _ _ _ _ _ _ _ _ _ Ha Hs).
          destruct (time_sleep_answer _ _ _) as [[[] | ?] ?]; eauto.
    - rewrite (body_agent_raises _ _ _ _ _ Ha). eauto. }
  destruct Hb as (x & w' & rest & ->).
  destruct x as [[o' ci' | g] | e]; simpl; eauto.
  destruct (looping fuel o' ci' w') as [[x2 w2] t2]. simpl. eauto.
Qed.

(** A run of successful turns: the loop is still going after each turn in
    progress, and returns at the first turn whose outcome is final. *)
Lemma loop_successful_submits n :
  forall o ci w final w_end,
    successful_submits_until n client agent_fn on_step gid o w final w_end ->
    (forall j, (j <= n)%nat ->
       exists w' tr, looping j o ci w = (Ok None, w', tr))
    /\ (forall k,
         exists tr,
           looping (S n + k) o ci w =
           (Ok (Some {| game_id := gid; spectator_url := url;
                        outcome := final |}), w_end, tr)
           /\ length (agent_calls tr) = S n).
Proof.
  induction n as [| n IH]; intros o ci w final w_end
    (a & w1 & result & w2 & w3 & tr_cb & Ha & Hs & Hcb & Hn).
  - destruct Hn as (Hfin & <- & <-). split.
    + intros j Hj. replace j with 0%nat by lia. simpl. unfold ret. eauto.
    + intros k. change (1 + k)%nat with (S k).
      rewrite loop_unroll,
        (body_submit_ok_returns _ _ _ _ _ _ _ _ _ Ha Hs Hcb), Hfin.
      eexists. split; [reflexivity |].
      unfold on_step_returns in Hcb.
      destruct on_step; destruct Hcb as [_ ->]; reflexivity.
  - destruct Hn as (Hgo & Hrest).
    destruct (IH (action_observation result) 0 w3 final w_end Hrest)
      as [Hrunning Hreturns].
    assert (Hb := body_submit_ok_returns _ ci _ _ _ _ _ _ _ Ha Hs Hcb).
    rewrite Hgo in Hb. split.
    + intros [| j] Hj; [simpl; unfold ret; eauto |].
      destruct (Hrunning j ltac:(lia)) as (w' & tr & Hl).
      rewrite loop_unroll, Hb, Hl. simpl. eauto.
    + intros k. destruct (Hreturns k) as (tr & Hl & Hlen).
      change (S (S n) + k)%nat with (S (S n + k)).
      rewrite loop_unroll, Hb, Hl. simpl.
      eexists. split; [reflexivity |].
      unfold on_step_returns in Hcb.
      destruct on_step; destruct Hcb as [_ ->]; simpl; rewrite Hlen;
        reflexivity.
Qed.

(** C1 (as amended).  In an iteration whose decision is produced, whose
    submit succeeds and whose step-callback, if there is one, returns
    normally, the loop ends at that iteration exactly when the outcome
    of the response is not in progress; it then returns the
    [GameResult] of the game identifier, the spectator URL and that
    outcome.  While the outcome is in progress the loop goes on, from
    the observation of the response.  Hence, over [n] such turns in
    progress followed by one whose outcome is final, the loop is still
    going after each of the first [n] and returns at turn [n + 1]. *)
Theorem successful_submit_ends_loop_iff_outcome_final :
  (forall fuel o ci w a w1 result w2 w3 tr_cb,
      agent_fn o w = (Ok a, w1) ->
      games_action client gid a w1 = (Ok result, w2) ->
      on_step_returns on_step o a w2 w3 tr_cb ->
      let tr :=
        [EvAgentFn o (Ok a); EvGamesAction gid a (Ok result)] ++ tr_cb in
      ((exists g,
           iteration elapse client agent_fn gid url max_invalid_actions
                     on_step o ci w
           = (Ok (Return g), w3, tr))
       <-> is_InProgressOutcome (action_outcome result) = false)
      /\ (is_InProgressOutcome (action_outcome result) = false ->
          loop elapse (S fuel) client agent_fn gid url max_invalid_actions
               on_step o ci w
          = (Ok (Some {| game_id := gid; spectator_url := url;
                         outcome := action_outcome result |}), w3, tr))
      /\ (is_InProgressOutcome (action_outcome result) = true ->
          iteration elapse client agent_fn gid url max_invalid_actions
                    on_step o ci w
          = (Ok (Continue (action_observation result) 0), w3, tr)
          /\ loop elapse (S fuel) client agent_fn gid url max_invalid_actions
                  on_step o ci w
             = after tr (loop elapse fuel client agent_fn gid url
                              max_invalid_actions on_step
                              (action_observation result) 0 w3)))
  /\ (forall n o ci w final w_end,
      successful_submits_until n client agent_fn on_step gid o w final w_end ->
      (forall j, (j <= n)%nat ->
         exists w' tr,
           loop elapse j client agent_fn gid url max_invalid_actions
                on_step o ci w
           = (Ok None, w', tr))
      /\ (forall k,
           exists tr,
             loop elapse (S n + k) client agent_fn gid url max_invalid_actions
                  on_step o ci w
             = (Ok (Some {| game_id := gid; spectator_url := url;
                            outcome := final |}), w_end, tr)
             /\ length (agent_calls tr) = S n)).
Proof.
  split; [| intros n o ci w final w_end; apply loop_successful_submits].
  intros fuel o ci w a w1 result w2 w3 tr_cb Ha Hs Hcb tr.
  pose proof (body_submit_ok_returns _ ci _ _ _ _ _ _ _ Ha Hs Hcb) as Hbody.
  fold tr in Hbody. split; [| split].
  - rewrite Hbody.
    destruct (is_InProgressOutcome (action_outcome result)); split.
    + intros [g Hg]. discriminate Hg.
    + discriminate.
    + reflexivity.
    + intros _. eexists. reflexivity.
  - intros Hfin. rewrite loop_unroll, Hbody, Hfin. reflexivity.
  - intros Hgo. rewrite loop_unroll, Hbody, Hgo. split; reflexivity.
Qed.

(** C2.  Resuming: when the fetched outcome is not in progress,
    [run_game] returns the [GameResult] of the game identifier, an empty
    spectator URL and that outcome, having made the fetch and no other
    call, whatever the fuel; when it is in progress, the loop runs from
    the fetched observation with an empty spectator URL. *)
Theorem resume_returns_at_once_when_over fuel model_id g w state w1 :
  games_get client g w = (Ok state, w1) ->
  (is_InProgressOutcome (state_outcome state) = false ->
     run_game elapse fuel client agent_fn model_id (Some g)
              max_invalid_actions on_step w
     = (Ok (Some {| game_id := g; spectator_url := "";
                    outcome := state_outcome state |}),
        w1, [EvGamesGet g (Ok state)]))
  /\ (is_InProgressOutcome (state_outcome state) = true ->
      run_game elapse fuel client agent_fn model_id (Some g)
               max_invalid_actions on_step w
      = after [EvGamesGet g (Ok state)]
              (loop elapse fuel client agent_fn g "" max_invalid_actions
                    on_step (state_observation state) 0 w1)).
Proof.
  intros Hg.
  split; intros Ho; unfold run_game, bind, call, lift, ret, GameResult_init;
    rewrite Hg; simpl; rewrite Ho; simpl.
  - reflexivity.
  - unfold after. destruct (loop _ _ _ _ _ _ _ _ _ _ w1) as [[r w2] t2].
    reflexivity.
Qed.

(** C3.  A submit rejected as an invalid action adds one to the counter
    of consecutive invalid actions; the rejection is raised again when
    the counter has reached [max_invalid_actions], and otherwise the
    loop goes on with the same observation.  A successful submit puts
    the counter back to zero.  Hence, from a zero counter,
    [max_invalid_actions = N >= 1] rejections in a row end in the
    [InvalidActionError] of the last one, after exactly [N] decisions,
    all taken on the same observation, and [N] submits. *)
Theorem invalid_actions_raise_at_threshold :
  (forall o ci w a w1 s m c w2,
      agent_fn o w = (Ok a, w1) ->
      games_action client gid a w1 = (Raise (InvalidActionError s m c), w2) ->
      iteration elapse client agent_fn gid url max_invalid_actions
                on_step o ci w
      = (if ci + 1 >=? max_invalid_actions
         then Raise (InvalidActionError s m c)
         else Ok (Continue o (ci + 1)),
         w2,
         [EvAgentFn o (Ok a);
          EvGamesAction gid a (Raise (InvalidActionError s m c))]))
  /\ (forall o ci w a w1 result w2 w3 tr_cb,
      agent_fn o w = (Ok a, w1) ->
      games_action client gid a w1 = (Ok result, w2) ->
      on_step_returns on_step o a w2 w3 tr_cb ->
      is_InProgressOutcome (action_outcome result) = true ->
      exists tr,
        iteration elapse client agent_fn gid url max_invalid_actions
                  on_step o ci w
        = (Ok (Continue (action_observation result) 0), w3, tr))
  /\ (forall (n k : nat) o ci w,
      invalid_rejections (S n) client agent_fn gid o w ->
      ci + Z.of_nat (S n) = max_invalid_actions ->
      exists s m c w' tr,
        loop elapse (S n + k) client agent_fn gid url max_invalid_actions
             on_step o ci w
        = (Raise (InvalidActionError s m c), w', tr)
        /\ agent_calls tr = repeat o (S n)
        /\ length (submits tr) = S n).
Proof.
  split; [| split].
  - intros o ci w a w1 s m c w2 Ha Hs.
    exact (body_invalid_action _ _ _ _ _ _ _ _ _ Ha Hs).
  - intros o ci w a w1 result w2 w3 tr_cb Ha Hs Hcb Hgo.
    rewrite (body_submit_ok_returns _ ci _ _ _ _ _ _ _ Ha Hs Hcb), Hgo.
    eauto.
  - induction n as [| n IH]; intros k o ci w Hrej Hmax.
    + destruct Hrej as (a & w1 & s & m & c & w2 & Ha & Hs & _).
      exists s, m, c, w2. eexists.
      change (S 0 + k)%nat with (S k).
      rewrite loop_unroll, (body_invalid_action _ _ _ _ _ _ _ _ _ Ha Hs).
      replace (ci + 1 >=? max_invalid_actions) with true
        by (symmetry; apply Z.geb_le; lia).
      split; [reflexivity | split; reflexivity].
    + destruct Hrej as (a & w1 & s & m & c & w2 & Ha & Hs & Hrest).
      destruct (IH k o (ci + 1) w2 Hrest ltac:(lia))
        as (s' & m' & c' & w' & tr & Hloop & Hcalls & Hsub).
      exists s', m', c', w'. eexists.
      change (S (S n) + k)%nat with (S (S n + k)).
      rewrite loop_unroll, (body_invalid_action _ _ _ _ _ _ _ _ _ Ha Hs).
      replace (ci + 1 >=? max_invalid_actions) with false
        by (symmetry; rewrite Z.geb_leb; apply Z.leb_gt; lia).
      rewrite Hloop. simpl.
      split; [reflexivity | split].
      * simpl. rewrite Hcalls. reflexivity.
      * simpl. rewrite Hsub. reflexivity.
Qed.

(** [time.sleep] waits when its length is in range. *)
Lemma time_sleep_answer_in_range secs w :
  0 <= secs <= 9223372036 ->
  time_sleep_answer elapse secs w = elapse secs w.
Proof.
  intros Hr. unfold time_sleep_answer, fits_PyTime_t.
  replace (- 2 ^ 63 <=? secs * 10 ^ 9) with true
    by (symmetry; apply Z.leb_le; lia).
  replace (secs * 10 ^ 9 <=? 2 ^ 63 - 1) with true
    by (symmetry; apply Z.leb_le; lia).
  replace (secs <? 0) with false by (symmetry; apply Z.ltb_ge; lia).
  reflexivity.
Qed.

Lemma asyncio_sleep_answer_in_range secs w :
  0 <= secs <= 9223372036 ->
  asyncio_sleep_answer elapse secs w = elapse secs w.
Proof.
  intros Hr. unfold asyncio_sleep_answer, fits_float.
  destruct (secs <=? 0) eqn:H0.
  - apply Z.leb_le in H0. replace secs with 0 by lia. reflexivity.
  - replace (secs <? 2 ^ 1024 - 2 ^ 970) with true; [reflexivity |].
    symmetry. apply Z.ltb_lt.
    apply Z.le_lt_trans with (m := 9223372036); [lia | reflexivity].
Qed.

(** X19.  A submit rejected as rate limited with a retry-after that
    [time.sleep] can hold, from 0 to 9223372036, makes the runner wait for
    that long; when the wait returns, the loop goes on with the same
    observation and the same counter of consecutive invalid actions, and
    its next call is the decision function on that same observation. *)
Theorem rate_limit_sleeps_then_retries
    fuel o ci w a w1 s m retry_after w2 w3 :
  agent_fn o w = (Ok a, w1) ->
  games_action client gid a w1
    = (Raise (RateLimitError s m retry_after), w2) ->
  0 <= retry_after <= 9223372036 ->
  elapse retry_after w2 = (Ok tt, w3) ->
  let tr := [EvAgentFn o (Ok a);
             EvGamesAction gid a (Raise (RateLimitError s m retry_after));
             EvSleep time_sleep_call retry_after (Ok tt)] in
  iteration elapse client agent_fn gid url max_invalid_actions on_step o ci w
  = (Ok (Continue o ci), w3, tr)
  /\ loop elapse (S fuel) client agent_fn gid url max_invalid_actions
          on_step o ci w
     = after tr (loop elapse fuel client agent_fn gid url max_invalid_actions
                      on_step o ci w3)
  /\ (forall r w4,
        agent_fn o w3 = (r, w4) ->
        exists x w' rest,
          loop elapse (S (S fuel)) client agent_fn gid url
               max_invalid_actions on_step o ci w
          = (x, w', tr ++ EvAgentFn o r :: rest)).
Proof.
  intros Ha Hs Hr Hw tr.
  assert (Hb : body o ci w = (Ok (Continue o ci), w3, tr)).
  { rewrite (body_rate_limit _ _ _ _ _ _ _ _ _ Ha Hs).
    rewrite (time_sleep_answer_in_range _ _ Hr), Hw. reflexivity. }
  split; [exact Hb | split].
  - rewrite loop_unroll, Hb. reflexivity.
  - intros r w4 Hnext.
    destruct (loop_asks_agent_first fuel o ci _ r w4 Hnext)
      as (x & w' & rest & Hl).
    exists x, w', rest. rewrite loop_unroll, Hb, Hl. reflexivity.
Qed.

(** C5 (as amended).  A submit that fails with a [GameOverError] carrying
    a completed or abandoned outcome ends the loop at once: [run_game]
    returns the [GameResult] of the game identifier, the spectator URL
    and exactly that outcome; nothing is raised and the decision function
    is not called again. *)
Theorem game_over_error_returns_result fuel o ci w a w1 s m oc w2 :
  agent_fn o w = (Ok a, w1) ->
  games_action client gid a w1 = (Raise (GameOverError s m oc), w2) ->
  is_InProgressOutcome oc = false ->
  loop elapse (S fuel) client agent_fn gid url max_invalid_actions
       on_step o ci w
  = (Ok (Some {| game_id := gid; spectator_url := url; outcome := oc |}),
     w2,
     [EvAgentFn o (Ok a);
      EvGamesAction gid a (Raise (GameOverError s m oc))]).
Proof.
  intros Ha Hs Hfin.
  rewrite loop_unroll, (body_game_over _ _ _ _ _ _ _ _ _ Ha Hs), Hfin.
  reflexivity.
Qed.

(** C7 (as amended).  When the decision function raises, the loop stops
    there: the decision function has been called once, nothing was
    submitted, and nothing is tried again.  An [Exception] is wrapped:
    the loop raises a [RuntimeError] whose message holds the game
    identifier and the turn of the current observation and whose cause is
    the exception raised.  What is no [Exception] ([KeyboardInterrupt],
    [SystemExit], a cancellation) is not caught by [except Exception] and
    leaves the loop as it is. *)
Theorem agent_failure_is_fatal fuel o ci w e w1 :
  agent_fn o w = (Raise e, w1) ->
  (is_Exception e = true ->
   loop elapse (S fuel) client agent_fn gid url max_invalid_actions
        on_step o ci w
   = (Raise (RuntimeError
               ("Agent function failed [game=" +:+ gid +:+ ", turn="
                  +:+ pretty (turn o) +:+ "]")
               (Some e)),
      w1, [EvAgentFn o (Raise e)]))
  /\ (is_Exception e = false ->
      loop elapse (S fuel) client agent_fn gid url max_invalid_actions
           on_step o ci w
      = (Raise e, w1, [EvAgentFn o (Raise e)])).
Proof.
  intros Ha. rewrite loop_unroll, (body_agent_raises _ _ _ _ _ Ha).
  split; intros ->; reflexivity.
Qed.

End RunnerFacts.

Lemma on_step_calls_app t1 t2 :
  on_step_calls (t1 ++ t2) = on_step_calls t1 ++ on_step_calls t2.
Proof.
  induction t1 as [| ev t1 IH]; [reflexivity |].
  destruct ev; simpl; rewrite IH; reflexivity.
Qed.

Lemma successful_submits_app t1 t2 :
  successful_submits (t1 ++ t2)
  = successful_submits t1 ++ successful_submits t2.
Proof.
  induction t1 as [| ev t1 IH]; [reflexivity |].
  destruct ev as [| | | g a [r | e] | |]; simpl; rewrite IH; reflexivity.
Qed.

Section CallbackFacts.

Context {W : Type} (elapse : Z -> W -> res unit * W).
Variables (client : CrawlerClient (W := W)) (agent_fn : agent (W := W)).
Variable max_invalid_actions : Z.
Variable f : step_callback (W := W).

Local Abbreviation body gid url :=
  (iteration elapse client agent_fn gid url max_invalid_actions (Some f)).
Local Abbreviation looping fuel gid url :=
  (loop elapse fuel client agent_fn gid url max_invalid_actions (Some f)).

(** The calls of one iteration: as many callback calls as successful
    submits, with the same arguments; and an iteration after which the
    loop goes on is a closed block of the trace. *)
Lemma body_turn gid url o ci w :
  match body gid url o ci w with
  | (Ok (Continue _ _), _, t) =>
      on_step_calls t = successful_turns t
      /\ map snd (on_step_calls t) = map snd (successful_submits t)
      /\ forall rest,
          successful_turns (t ++ rest)
          = successful_turns t ++ successful_turns rest
  | (_, _, t) =>
      on_step_calls t = successful_turns t
      /\ map snd (on_step_calls t) = map snd (successful_submits t)
  end.
Proof.
  destruct (agent_fn o w) as [[a | e] w1] eqn:Ha.
  - destruct (games_action client gid a w1) as [[result | e] w2] eqn:Hs.
    + rewrite (body_submit_ok _ _ _ _ _ _ _ _ _ _ _ _ _ _ Ha Hs).
      destruct (f o a w2) as [[[] | e] w3]; [| split; reflexivity].
      destruct (is_InProgressOutcome (action_outcome result)); simpl; auto.
    + destruct e;
        try (unfold iteration, bind, attempt, call, ret, raise, lift;
             rewrite Ha; simpl; rewrite Hs; simpl; split; reflexivity).
      * rewrite (body_game_over _ _ _ _ _ _ _ _ _ _ _ _ _ _ _ _ Ha Hs).
        destruct (is_InProgressOutcome outcome0); split; reflexivity.
      * rewrite (body_invalid_action _ _ _ _ _ _ _ _ _ _ _ _ _ _ _ _ Ha Hs).
        destruct (_ >=? _); simpl; auto.
      * rewrite (body_rate_limit _ _ _ _ _ _ _ _ _ _ _ _ _ _ _ _ Ha Hs).
        destruct (time_sleep_answer _ _ _) as [[[] | ?] ?]; simpl; auto.
  - rewrite (body_agent_raises _ _ _ _ _ _ _ _ _ _ _ _ Ha).
    split; reflexivity.
Qed.

Lemma loop_on_step_calls fuel gid url :
  forall o ci w,
    on_step_calls (snd (looping fuel gid url o ci w))
    = successful_turns (snd (looping fuel gid url o ci w))
    /\ map snd (on_step_calls (snd (looping fuel gid url o ci w)))
       = map snd (successful_submits (snd (looping fuel gid url o ci w))).
Proof.
  induction fuel as [| fuel IH]; intros o ci w; [split; reflexivity |].
  rewrite loop_unroll. pose proof (body_turn gid url o ci w) as Hb.
  destruct (body gid url o ci w) as [[[[o' ci' | g] | e] w1] t1]; simpl; auto.
  destruct Hb as (Hcalls & Hsub & Happ).
  destruct (IH o' ci' w1) as [IH1 IH2].
  destruct (looping fuel gid url o' ci' w1) as [[r w2] t2]. simpl in *.
  rewrite on_step_calls_app, successful_submits_app, Happ, !map_app.
  split.
  - rewrite Hcalls, IH1. reflexivity.
  - rewrite Hsub, IH2. reflexivity.
Qed.

(** C8.  With a step-callback, the runner calls it once for every
    successful submit, the last one included, in the order of the turns,
    with the observation the decision function was given and the action
    submitted; the call comes after the submit and before anything else,
    and an exception it raises is raised by the runner as it is, the loop
    ending there. *)
Theorem on_step_called_once_per_successful_submit :
  (forall fuel model_id g w,
      let tr := snd (run_game elapse fuel client agent_fn model_id g
                              max_invalid_actions (Some f) w) in
      on_step_calls tr = successful_turns tr
      /\ map snd (on_step_calls tr) = map snd (successful_submits tr))
  /\ (forall fuel gid url o ci w a w1 result w2 r w3,
      agent_fn o w = (Ok a, w1) ->
      games_action client gid a w1 = (Ok result, w2) ->
      f o a w2 = (r, w3) ->
      let tr := [EvAgentFn o (Ok a); EvGamesAction gid a (Ok result);
                 EvOnStep o a r] in
      (exists x,
          iteration elapse client agent_fn gid url max_invalid_actions
                    (Some f) o ci w
          = (x, w3, tr))
      /\ (forall e,
            r = Raise e ->
            loop elapse (S fuel) client agent_fn gid url max_invalid_actions
                 (Some f) o ci w
            = (Raise e, w3, tr))).
Proof.
  split.
  - intros fuel model_id g w. unfold run_game, bind, call, lift, ret.
    destruct g as [g |].
    + destruct (games_get client g w) as [[state | e] w1];
        [| split; reflexivity].
      destruct (negb (is_InProgressOutcome (state_outcome state))).
      * destruct (GameResult_init g "" (state_outcome state));
          split; reflexivity.
      * pose proof (loop_on_step_calls fuel g ""
                      (state_observation state) 0 w1) as Hl.
        destruct (loop _ _ _ _ _ _ _ _ _ _ w1) as [[r w2] t2]. exact Hl.
    + destruct (games_create client model_id w) as [[game | e] w1];
        [| split; reflexivity].
      pose proof (loop_on_step_calls fuel (created_game_id game)
                    (created_spectator_url game)
                    (created_observation game) 0 w1) as Hl.
      simpl in Hl.
      destruct (loop _ _ _ _ _ _ _ _ _ _ w1) as [[r w2] t2]. exact Hl.
  - intros fuel gid url o ci w a w1 result w2 r w3 Ha Hs Hf tr.
    pose proof (body_submit_ok elapse client agent_fn gid url
                  max_invalid_actions (Some f) o ci _ _ _ _ _ Ha Hs) as Hb.
    cbv beta iota in Hb. rewrite Hf in Hb. split.
    + destruct r as [[] | e]; rewrite Hb; eauto.
    + intros e ->. rewrite loop_unroll, Hb. reflexivity.
Qed.

End CallbackFacts.

Lemma retry_after_in_range_app t1 t2 :
  retry_after_in_range (t1 ++ t2)
  = retry_after_in_range t1 && retry_after_in_range t2.
Proof. unfold retry_after_in_range. apply forallb_app. Qed.

Lemma as_async_after {A W : Type} t (x : res A * W * list event) :
  as_async (after t x) = after (map as_async_event t) (as_async x).
Proof.
  destruct x as [[r w] t']. unfold as_async, after.
  rewrite map_app. reflexivity.
Qed.

Section AsyncFacts.

Context {W : Type} (elapse aelapse : Z -> W -> res unit * W).
Variable client : CrawlerClient (W := W).
Variable aclient : AsyncCrawlerClient (W := W).
Variable agent_fn : agent (W := W).
Variable max_invalid_actions : Z.
Variable on_step : option (step_callback (W := W)).

(** The asynchronous client answers as the synchronous one does, and the
    wait of the event loop as the wait of [time.sleep]. *)
Hypothesis same_wait : forall secs w, aelapse secs w = elapse secs w.
Hypothesis same_get :
  forall g w, async_games_get aclient g w = games_get client g w.
Hypothesis same_create :
  forall m w, async_games_create aclient m w = games_create client m w.
Hypothesis same_action :
  forall g a w, async_games_action aclient g a w = games_action client g a w.

Lemma async_iteration_as_iteration gid url o ci w :
  retry_after_in_range
    (snd (iteration elapse client agent_fn gid url max_invalid_actions
                    on_step o ci w)) = true ->
  async_iteration aelapse aclient agent_fn gid url max_invalid_actions
                  on_step o ci w
  = as_async (iteration elapse client agent_fn gid url max_invalid_actions
                        on_step o ci w).
Proof.
  unfold async_iteration, iteration, bind, attempt, ret, raise, lift,
    time_sleep, asyncio_sleep, call, GameResult_init.
  destruct (agent_fn o w) as [[a | e] w1]; simpl;
    [| destruct (is_Exception e); reflexivity].
  rewrite same_action.
  destruct (games_action client gid a w1) as [[result | e] w2]; simpl.
  - intros _. destruct on_step as [f |]; simpl.
    + destruct (f o a w2) as [[[] | e] w3]; simpl; [| reflexivity].
      destruct (is_InProgressOutcome (action_outcome result)); reflexivity.
    + destruct (is_InProgressOutcome (action_outcome result)); reflexivity.
  - destruct e; try (simpl; reflexivity).
    + simpl. destruct (is_InProgressOutcome outcome0); reflexivity.
    + simpl. destruct (_ >=? _); reflexivity.
    + cbn -[time_sleep_answer asyncio_sleep_answer].
      assert (Hin : retry_after_in_range
                      [EvGamesAction gid a
                         (Raise (RateLimitError status_code message
                                                retry_after))] = true ->
                    0 <= retry_after <= 9223372036).
      { simpl. rewrite andb_true_r. intros [H1 H2]%andb_prop.
        apply Z.leb_le in H1, H2. lia. }
      destruct (time_sleep_answer elapse retry_after w2)
        as [[[] | e] w3] eqn:Hts;
        cbn -[asyncio_sleep_answer retry_after_in_range];
        intros H;
        (assert (Hr : 0 <= retry_after <= 9223372036)
          by (apply Hin; unfold retry_after_in_range in *; simpl in *;
              destruct ((0 <=? retry_after) && (retry_after <=? 9223372036));
              [reflexivity | discriminate H]));
        rewrite (time_sleep_answer_in_range elapse _ _ Hr) in Hts;
        rewrite (asyncio_sleep_answer_in_range aelapse _ _ Hr), same_wait,
          Hts;
        reflexivity.
Qed.

Lemma async_loop_as_loop fuel gid url :
  forall o ci w,
    retry_after_in_range
      (snd (loop elapse fuel client agent_fn gid url max_invalid_actions
                 on_step o ci w)) = true ->
    async_loop aelapse fuel aclient agent_fn gid url max_invalid_actions
               on_step o ci w
    = as_async (loop elapse fuel client agent_fn gid url max_invalid_actions
                     on_step o ci w).
Proof.
  induction fuel as [| fuel IH]; intros o ci w; [reflexivity |].
  rewrite loop_unroll. simpl async_loop. unfold bind at 1.
  pose proof (async_iteration_as_iteration gid url o ci w) as Hb.
  destruct (iteration elapse client agent_fn gid url max_invalid_actions
                      on_step o ci w) as [[[[o' ci' | g] | e] w1] t1].
  - specialize (IH o' ci' w1).
    destruct (loop elapse fuel client agent_fn gid url max_invalid_actions
                   on_step o' ci' w1) as [[r w2] t2].
    simpl. rewrite retry_after_in_range_app. intros [H1 H2]%andb_prop.
    rewrite (Hb H1). simpl. rewrite (IH H2). simpl.
    rewrite map_app. reflexivity.
  - simpl. intros H1. rewrite (Hb H1). simpl. rewrite app_nil_r. reflexivity.
  - simpl. intros H1. rewrite (Hb H1). reflexivity.
Qed.


End AsyncFacts.

(* ===================================================================== *)
(** * Properties of the error taxonomy *)

Section BaseClientFacts.

Variable validate_python : json -> res Outcome.

Local Abbreviation raised status_code body headers :=
  (map_error_response validate_python status_code body headers).

Lemma int_of_str_raises_ValueError s e :
  int_of_str s = Raise e -> exists msg, e = ValueError msg.
Proof.
  unfold int_of_str, invalid_literal, too_many_digits. intros H.
  repeat match type of H with
         | context [match ?x with _ => _ end] => destruct x
         end;
    inversion H; eauto.
Qed.


(** C9.  On a 409 the outcome payload is tested for truth, not for
    presence: a body with no ["outcome"], with a null one or with an
    empty object raises the plain [CrawlerAPIError], as any false payload
    does; and a [GameOverError] is raised only on a 409 whose payload is
    true, then with what [parse_outcome] makes of it. *)
Theorem conflict_tests_outcome_payload_for_truth body headers :
  let message := dict_get body "error" (JStr "Unknown error") in
  (body !! "outcome" = None \/ body !! "outcome" = Some JNull
     \/ body !! "outcome" = Some (JDict ∅) ->
   raised 409 body headers = Raise (CrawlerAPIError 409 message))
  /\ (truthy (dict_get body "outcome" JNull) = false ->
      raised 409 body headers = Raise (CrawlerAPIError 409 message))
  /\ (truthy (dict_get body "outcome" JNull) = true ->
      forall outcome,
        parse_outcome validate_python (dict_get body "outcome" JNull)
        = Ok outcome ->
        raised 409 body headers = Raise (GameOverError 409 message outcome))
  /\ (forall status_code s m outcome,
        raised status_code body headers = Raise (GameOverError s m outcome) ->
        status_code = 409
        /\ exists v, body !! "outcome" = Some v /\ truthy v = true).
Proof.
  intros message.
  assert (Hfalse : truthy (dict_get body "outcome" JNull) = false ->
                   raised 409 body headers = Raise (CrawlerAPIError 409 message)).
  { intros Ht. unfold map_error_response. simpl. rewrite Ht. reflexivity. }
  split; [| split; [| split]].
  - intros H. apply Hfalse. unfold dict_get.
    destruct H as [-> | [-> | ->]]; reflexivity.
  - exact Hfalse.
  - intros Ht outcome Hp. unfold map_error_response. simpl.
    rewrite Ht, Hp. reflexivity.
  - intros status_code s m outcome. unfold map_error_response. fold message.
    destruct (status_code =? 400); [discriminate |].
    destruct (status_code =? 401); [discriminate |].
    destruct (status_code =? 403); [discriminate |].
    destruct (status_code =? 404); [discriminate |].
    destruct (status_code =? 409) eqn:H409.
    + apply Z.eqb_eq in H409. subst status_code.
      destruct (truthy (dict_get body "outcome" JNull)) eqn:Ht;
        [| discriminate].
      intros _. split; [reflexivity |]. unfold dict_get in Ht.
      destruct (body !! "outcome") as [v |]; [| discriminate Ht].
      exists v. auto.
    + destruct (status_code =? 422); [discriminate |].
      destruct (status_code =? 429); [| discriminate].
      destruct (int_of_str _) as [n | e] eqn:Hi; [discriminate |].
      destruct (int_of_str_raises_ValueError _ _ Hi) as [msg ->].
      discriminate.
Qed.

End BaseClientFacts.

(* ===================================================================== *)
(** * Concrete runs *)

(** A first submit answered with a final outcome ends the loop with it;
    and after two turns in progress the victory of the third is returned. *)
Lemma final_outcome_ends_game_1 :
  turns 1 (Some scripted_on_step) (mid_game [completed_victory 2] [] [])
  = (Ok (Some {| game_id := "game-1"; spectator_url := spectate_game_1;
                 outcome := CompletedOutcome victory 5 100 |}),
     mid_game [] [] [],
     [EvAgentFn (observation_at 1) (Ok (Wait None));
      EvGamesAction "game-1" (Wait None) (answer (completed_victory 2))]
       ++ [EvOnStep (observation_at 1) (Wait None) (Ok tt)])
  /\ (exists w' tr,
        turns 2 None
              (mid_game [in_progress 2; in_progress 3; completed_victory 4]
                        [] [])
        = (Ok None, w', tr))
  /\ (exists tr,
        turns 3 None
              (mid_game [in_progress 2; in_progress 3; completed_victory 4]
                        [] [])
        = (Ok (Some {| game_id := "game-1"; spectator_url := spectate_game_1;
                       outcome := CompletedOutcome victory 5 100 |}),
           mid_game [] [] [], tr)
        /\ length (agent_calls tr) = 3%nat).
Proof.
  pose proof (successful_submit_ends_loop_iff_outcome_final
                tick scripted_client scripted_agent "game-1" spectate_game_1
                default_max_invalid_actions (Some scripted_on_step))
    as [Hturn _].
  pose proof (successful_submit_ends_loop_iff_outcome_final
                tick scripted_client scripted_agent "game-1" spectate_game_1
                default_max_invalid_actions None)
    as [_ Hrun].
  split.
  - exact (proj1 (proj2
      (Hturn 0%nat (observation_at 1) 0
         (mid_game [completed_victory 2] [] []) (Wait None)
         (mid_game [completed_victory 2] [] [])
         {| action_observation := observation_at 2;
            action_outcome := CompletedOutcome victory 5 100 |}
         (mid_game [] [] []) (mid_game [] [] [])
         [EvOnStep (observation_at 1) (Wait None) (Ok tt)]
         eq_refl eq_refl (conj eq_refl eq_refl))) eq_refl).
  - assert (Huntil :
      successful_submits_until 2 scripted_client scripted_agent None "game-1"
        (observation_at 1)
        (mid_game [in_progress 2; in_progress 3; completed_victory 4] [] [])
        (CompletedOutcome victory 5 100) (mid_game [] [] [])).
    { simpl.
      do 6 eexists.
      split; [reflexivity |]. split; [reflexivity |].
      split; [split; reflexivity |]. split; [reflexivity |].
      do 6 eexists.
      split; [reflexivity |]. split; [reflexivity |].
      split; [split; reflexivity |]. split; [reflexivity |].
      do 6 eexists.
      split; [reflexivity |]. split; [reflexivity |].
      split; [split; reflexivity |]. repeat split. }
    destruct (Hrun 2%nat (observation_at 1) 0 _ _ _ Huntil) as [Hgoing Hret].
    split.
    + exact (Hgoing 2%nat (le_n 2)).
    + exact (Hret 0%nat).
Defined.

(** The submit succeeds and its outcome is in progress, the callback
    raises: the run is over, with two iterations of fuel left. *)
Lemma callback_failure_ends_game_in_progress :
  play 3 (Some scripted_on_step) (new_game [in_progress 2] [] [Raise callback_failed])
  = (Raise callback_failed,
     mid_game [] [] [],
     [EvGamesCreate None (answer game_1);
      EvAgentFn (observation_at 1) (Ok (Wait None));
      EvGamesAction "game-1" (Wait None)
        (Ok {| action_observation := observation_at 2;
               action_outcome := InProgressOutcome |});
      EvOnStep (observation_at 1) (Wait None) (Raise callback_failed)]).
Proof. vm_compute. reflexivity. Qed.

(** Resuming a game that is over: one fetch, and the result. *)
Lemma resume_done_game :
  run_game tick 0 scripted_client scripted_agent None (Some "done-game")
           default_max_invalid_actions None (old_game done_state [])
  = (Ok (Some {| game_id := "done-game"; spectator_url := "";
                 outcome := CompletedOutcome victory 5 100 |}),
     mid_game [] [] [],
     [EvGamesGet "done-game" (Ok done_state)]).
Proof.
  exact (proj1
    (resume_returns_at_once_when_over
       tick scripted_client scripted_agent default_max_invalid_actions None
       0%nat None "done-game" (old_game done_state []) done_state
       (mid_game [] [] []) eq_refl) eq_refl).
Defined.

(** Five rejections in a row, with the default threshold. *)
Lemma five_invalid_actions_raise :
  exists s m c w' tr,
    turns 5 None (mid_game (repeat invalid_action 5) [] [])
    = (Raise (InvalidActionError s m c), w', tr)
    /\ agent_calls tr = repeat (observation_at 1) 5
    /\ length (submits tr) = 5%nat.
Proof.
  refine (proj2 (proj2
    (invalid_actions_raise_at_threshold
       tick scripted_client scripted_agent "game-1" spectate_game_1
       default_max_invalid_actions None))
    4%nat 0%nat (observation_at 1) 0
    (mid_game (repeat invalid_action 5) [] []) _ eq_refl).
  simpl.
  repeat (eexists; eexists; eexists; eexists; eexists; eexists;
          split; [reflexivity | split; [vm_compute; reflexivity |]]).
  exact I.
Defined.

(** A rate limit with retry-after 2: two seconds pass, same turn again. *)
Lemma rate_limit_retries_game_1 :
  iteration tick scripted_client scripted_agent "game-1" spectate_game_1
            default_max_invalid_actions None (observation_at 1) 3
            (mid_game [rate_limited "2"; completed_victory 2] [] [])
  = (Ok (Continue (observation_at 1) 3),
     later 2 (mid_game [completed_victory 2] [] []),
     [EvAgentFn (observation_at 1) (Ok (Wait None));
      EvGamesAction "game-1" (Wait None)
        (Raise (RateLimitError 429 (JStr "Rate limited") 2));
      EvSleep time_sleep_call 2 (Ok tt)]).
Proof.
  refine (proj1
    (rate_limit_sleeps_then_retries
       tick scripted_client scripted_agent "game-1" spectate_game_1
       default_max_invalid_actions None
       0%nat (observation_at 1) 3
       (mid_game [rate_limited "2"; completed_victory 2] [] []) (Wait None)
       (mid_game [rate_limited "2"; completed_victory 2] [] [])
       429 (JStr "Rate limited") 2
       (mid_game [completed_victory 2] [] [])
       (later 2 (mid_game [completed_victory 2] [] []))
       eq_refl _ _ eq_refl)).
  - vm_compute. reflexivity.
  - lia.
Defined.

(** C4.  The failing input: a submit rejected as rate limited with a
    retry-after of -1.  The iteration of [run_game] calls [time.sleep(-1)],
    which raises [ValueError]: it does not go on to ask for a decision
    again, and the run ends with that error.  The iteration of
    [async_run_game], on the same input, waits and goes on with the same
    observation and the same counter. *)
Theorem negative_retry_after_ends_game :
  iteration tick scripted_client scripted_agent "game-1" spectate_game_1
            default_max_invalid_actions None (observation_at 1) 3
            (mid_game [rate_limited "-1"; completed_victory 2] [] [])
  = (Raise (ValueError "sleep length must be non-negative"),
     mid_game [completed_victory 2] [] [],
     [EvAgentFn (observation_at 1) (Ok (Wait None));
      EvGamesAction "game-1" (Wait None)
        (Raise (RateLimitError 429 (JStr "Rate limited") (-1)));
      EvSleep time_sleep_call (-1)
        (Raise (ValueError "sleep length must be non-negative"))])
  /\ async_iteration tick scripted_async_client scripted_agent
                     "game-1" spectate_game_1
                     default_max_invalid_actions None (observation_at 1) 3
                     (mid_game [rate_limited "-1"; completed_victory 2] [] [])
     = (Ok (Continue (observation_at 1) 3),
        later 0 (mid_game [completed_victory 2] [] []),
        [EvAgentFn (observation_at 1) (Ok (Wait None));
         EvGamesAction "game-1" (Wait None)
           (Raise (RateLimitError 429 (JStr "Rate limited") (-1)));
         EvSleep asyncio_sleep_call (-1) (Ok tt)])
  /\ play 3 None (new_game [rate_limited "-1"; completed_victory 2] [] [])
     = (Raise (ValueError "sleep length must be non-negative"),
        mid_game [completed_victory 2] [] [],
        [EvGamesCreate None (answer game_1);
         EvAgentFn (observation_at 1) (Ok (Wait None));
         EvGamesAction "game-1" (Wait None)
           (Raise (RateLimitError 429 (JStr "Rate limited") (-1)));
         EvSleep time_sleep_call (-1)
           (Raise (ValueError "sleep length must be non-negative"))]).
Proof. vm_compute. repeat split. Qed.

(** A conflict carrying the death of the tests: the result of the run. *)
Lemma game_over_between_turns :
  turns 1 None (mid_game [conflict death_payload] [] [])
  = (Ok (Some {| game_id := "game-1"; spectator_url := spectate_game_1;
                 outcome := CompletedOutcome death 3 47 |}),
     mid_game [] [] [],
     [EvAgentFn (observation_at 1) (Ok (Wait None));
      EvGamesAction "game-1" (Wait None)
        (Raise (GameOverError 409 (JStr "Game ended")
                              (CompletedOutcome death 3 47)))]).
Proof.
  refine (game_over_error_returns_result
            tick scripted_client scripted_agent "game-1" spectate_game_1
            default_max_invalid_actions None
            0%nat (observation_at 1) 0
            (mid_game [conflict death_payload] [] []) (Wait None)
            (mid_game [conflict death_payload] [] [])
            409 (JStr "Game ended") (CompletedOutcome death 3 47)
            (mid_game [] [] []) eq_refl _ eq_refl).
  vm_compute. reflexivity.
Defined.

(** A conflict carrying an outcome in progress: the [GameOverError] holds
    it, no [GameResult] can, and the run raises. *)
Lemma game_over_in_progress_raises :
  play 3 None (new_game [conflict in_progress_payload] [] [])
  = (Raise (PydanticValidationError "GameResult"),
     mid_game [] [] [],
     [EvGamesCreate None (answer game_1);
      EvAgentFn (observation_at 1) (Ok (Wait None));
      EvGamesAction "game-1" (Wait None)
        (Raise (GameOverError 409 (JStr "Game ended") InProgressOutcome))]).
Proof. vm_compute. reflexivity. Qed.


(** A 409 whose payload names no known status: pydantic's error is what
    [map_error_response] raises. *)
Lemma unknown_status_raises_validation_error :
  map_error_response outcome_adapter 409
    (<["outcome" := JDict (<["status" := JStr "lost"]> ∅)]> ∅) ∅
  = Raise (PydanticValidationError "Outcome").
Proof. vm_compute. reflexivity. Qed.


(** The agent of the tests that crashes at the first turn. *)
Lemma crashing_agent_ends_game_1 :
  turns 3 None (mid_game [completed_victory 2] [Raise agent_crashed] [])
  = (Raise (RuntimeError "Agent function failed [game=game-1, turn=1]"
                         (Some agent_crashed)),
     mid_game [completed_victory 2] [] [],
     [EvAgentFn (observation_at 1) (Raise agent_crashed)]).
Proof.
  exact (proj1
           (agent_failure_is_fatal
              tick scripted_client scripted_agent "game-1" spectate_game_1
              default_max_invalid_actions None
              2%nat (observation_at 1) 0
              (mid_game [completed_victory 2] [Raise agent_crashed] [])
              agent_crashed (mid_game [completed_victory 2] [] []) eq_refl)
           eq_refl).
Defined.

(** An agent interrupted from the keyboard at the first turn: the run
    ends with the [KeyboardInterrupt] itself, no [RuntimeError] holds the
    game and the turn. *)
Lemma interrupted_agent_is_not_wrapped :
  turns 3 None (mid_game [completed_victory 2] [Raise KeyboardInterrupt] [])
  = (Raise KeyboardInterrupt,
     mid_game [completed_victory 2] [] [],
     [EvAgentFn (observation_at 1) (Raise KeyboardInterrupt)]).
Proof. vm_compute. reflexivity. Qed.

(** The callback of the tests that fails on a turn in progress. *)
Lemma failing_callback_ends_game_1 :
  turns 3 (Some scripted_on_step)
        (mid_game [in_progress 2] [] [Raise callback_failed])
  = (Raise callback_failed,
     mid_game [] [] [],
     [EvAgentFn (observation_at 1) (Ok (Wait None));
      EvGamesAction "game-1" (Wait None) (answer (in_progress 2));
      EvOnStep (observation_at 1) (Wait None) (Raise callback_failed)]).
Proof.
  exact (proj2
    (proj2 (on_step_called_once_per_successful_submit
              tick scripted_client scripted_agent
              default_max_invalid_actions scripted_on_step)
       2%nat "game-1" spectate_game_1 (observation_at 1) 0
       (mid_game [in_progress 2] [] [Raise callback_failed]) (Wait None)
       (mid_game [in_progress 2] [] [Raise callback_failed])
       {| action_observation := observation_at 2;
          action_outcome := InProgressOutcome |}
       (mid_game [] [] [Raise callback_failed])
       (Raise callback_failed) (mid_game [] [] [])
       eq_refl eq_refl eq_refl)
    callback_failed eq_refl).
Defined.

(** A 409 with an empty outcome object is a plain conflict. *)
Lemma conflict_with_empty_outcome :
  map_error_response outcome_adapter 409
    (<["error" := JStr "Game ended"]> (<["outcome" := JDict ∅]> ∅)) ∅
  = Raise (CrawlerAPIError 409 (JStr "Game ended")).
Proof.
  refine (proj1
    (conflict_tests_outcome_payload_for_truth outcome_adapter
       (<["error" := JStr "Game ended"]> (<["outcome" := JDict ∅]> ∅)) ∅) _).
  right. right. vm_compute. reflexivity.
Defined.


(** C10.  The failing input: a new game whose first submit is rejected
    as rate limited with a retry-after of -1 and whose second wins.  Given
    the same answers and the same decisions, [run_game] raises what
    [time.sleep] raises, after one decision, and [async_run_game] waits,
    asks again and returns the victory: the two are not equivalent
    there. *)
Theorem async_play_differs_on_negative_retry_after :
  fst (fst (play 3 None
                 (new_game [rate_limited "-1"; completed_victory 2] [] [])))
  = Raise (ValueError "sleep length must be non-negative")
  /\ fst (fst (async_play 3 None
                 (new_game [rate_limited "-1"; completed_victory 2] [] [])))
     = Ok (Some {| game_id := "game-1"; spectator_url := spectate_game_1;
                   outcome := CompletedOutcome victory 5 100 |})
  /\ agent_calls (snd (play 3 None
                 (new_game [rate_limited "-1"; completed_victory 2] [] [])))
     = [observation_at 1]
  /\ agent_calls (snd (async_play 3 None
                 (new_game [rate_limited "-1"; completed_victory 2] [] [])))
     = [observation_at 1; observation_at 1].
Proof. vm_compute. repeat split. Qed.

(* ===================================================================== *)
(** * Further properties of the runner *)

Lemma agent_calls_app t1 t2 :
  agent_calls (t1 ++ t2) = agent_calls t1 ++ agent_calls t2.
Proof.
  induction t1 as [| ev t1 IH]; [reflexivity |].
  destruct ev; simpl; rewrite IH; reflexivity.
Qed.

Lemma agent_outputs_app t1 t2 :
  agent_outputs (t1 ++ t2) = agent_outputs t1 ++ agent_outputs t2.
Proof.
  induction t1 as [| ev t1 IH]; [reflexivity |].
  destruct ev as [| | ? [? | ?] | | |]; simpl; rewrite IH; reflexivity.
Qed.

Lemma submits_app t1 t2 : submits (t1 ++ t2) = submits t1 ++ submits t2.
Proof.
  induction t1 as [| ev t1 IH]; [reflexivity |].
  destruct ev; simpl; rewrite IH; reflexivity.
Qed.

Lemma sleeps_app t1 t2 : sleeps (t1 ++ t2) = sleeps t1 ++ sleeps t2.
Proof.
  induction t1 as [| ev t1 IH]; [reflexivity |].
  destruct ev; simpl; rewrite IH; reflexivity.
Qed.

Lemma rate_limits_app t1 t2 :
  rate_limits (t1 ++ t2) = rate_limits t1 ++ rate_limits t2.
Proof.
  induction t1 as [| ev t1 IH]; [reflexivity |].
  destruct ev as [| | | ? ? [? | []] | |]; simpl; rewrite IH; reflexivity.
Qed.

Lemma created_games_app t1 t2 :
  created_games (t1 ++ t2) = created_games t1 ++ created_games t2.
Proof.
  induction t1 as [| ev t1 IH]; [reflexivity |].
  destruct ev as [| ? [? | ?] | | | |]; simpl; rewrite IH; reflexivity.
Qed.

Lemma turn_invariant_app prim gid url t1 t2 :
  turn_invariant prim gid url t1 -> turn_invariant prim gid url t2 ->
  turn_invariant prim gid url (t1 ++ t2).
Proof.
  intros (S1 & L1 & P1 & C1) (S2 & L2 & P2 & C2). unfold turn_invariant.
  rewrite submits_app, agent_outputs_app, sleeps_app, rate_limits_app,
    created_games_app, !map_app, length_app, repeat_app.
  rewrite S1, S2, L1, L2, P1, P2, C1, C2. auto.
Qed.

Section RunnerInvariants.

Context {W : Type} (elapse : Z -> W -> res unit * W).
Variables (client : CrawlerClient (W := W)) (agent_fn : agent (W := W)).
Variable max_invalid_actions : Z.
Variable on_step : option (step_callback (W := W)).

Lemma iteration_invariant gid url o ci w :
  match iteration elapse client agent_fn gid url max_invalid_actions
                  on_step o ci w with
  | (x, _, t) =>
      turn_invariant time_sleep_call gid url t
      /\ length (agent_calls t) = 1%nat
      /\ (length (submits t) <= 1)%nat
      /\ match x with
         | Ok (Return g) => result_invariant gid url g
         | Ok (Continue _ _) => length (submits t) = 1%nat
         | Raise _ => True
         end
  end.
Proof.
  unfold turn_invariant, result_invariant.
  destruct (agent_fn o w) as [[a | e] w1] eqn:Ha.
  - destruct (games_action client gid a w1) as [[result | e] w2] eqn:Hs.
    + rewrite (body_submit_ok _ _ _ _ _ _ _ _ _ _ _ _ _ _ Ha Hs).
      destruct on_step as [f |];
        [destruct (f o a w2) as [[[] | e] w3] |];
        try destruct (is_InProgressOutcome (action_outcome result)) eqn:Ho;
        simpl; rewrite ?Ho; auto 10.
    + destruct e;
        try (unfold iteration, bind, attempt, call, ret, raise, lift;
             rewrite Ha; simpl; rewrite Hs; simpl; auto 10; fail).
      * rewrite (body_game_over _ _ _ _ _ _ _ _ _ _ _ _ _ _ _ _ Ha Hs).
        destruct (is_InProgressOutcome outcome0) eqn:Ho; simpl; auto 10.
      * rewrite (body_invalid_action _ _ _ _ _ _ _ _ _ _ _ _ _ _ _ _ Ha Hs).
        destruct (_ >=? _); simpl; auto 10.
      * rewrite (body_rate_limit _ _ _ _ _ _ _ _ _ _ _ _ _ _ _ _ Ha Hs).
        destruct (time_sleep_answer _ _ _) as [[[] | ?] ?]; simpl; auto 10.
  - rewrite (body_agent_raises _ _ _ _ _ _ _ _ _ _ _ _ Ha). simpl. auto 10.
Qed.

Lemma loop_invariant fuel gid url :
  forall o ci w,
    match loop elapse fuel client agent_fn gid url max_invalid_actions
               on_step o ci w with
    | (x, _, t) =>
        turn_invariant time_sleep_call gid url t
        /\ (length (submits t) <= length (agent_calls t)
            <= S (length (submits t)))%nat
        /\ match x with
           | Ok (Some g) => result_invariant gid url g
           | _ => True
           end
    end.
Proof.
  induction fuel as [| fuel IH]; intros o ci w.
  - simpl. unfold turn_invariant. simpl. auto 10.
  - rewrite loop_unroll.
    pose proof (iteration_invariant gid url o ci w) as Hb.
    destruct (iteration elapse client agent_fn gid url max_invalid_actions
                        on_step o ci w) as [[[[o' ci' | g] | e] w1] t1].
    + destruct Hb as (Ht & Hcalls & _ & Hsub).
      specialize (IH o' ci' w1).
      destruct (loop elapse fuel client agent_fn gid url max_invalid_actions
                     on_step o' ci' w1) as [[x w2] t2].
      destruct IH as (Ht2 & Hlen & Hx). simpl.
      split; [apply turn_invariant_app; assumption |].
      rewrite submits_app, agent_calls_app, !length_app, Hcalls, Hsub.
      split; [lia | exact Hx].
    + destruct Hb as (Ht & Hcalls & Hle & Hg). rewrite Hcalls.
      split; [exact Ht | split; [lia | exact Hg]].
    + destruct Hb as (Ht & Hcalls & Hle & _). rewrite Hcalls.
      split; [exact Ht | split; [lia | exact I]].
Qed.

(** X1.  Whatever [run_game] returns is a result of the game it ran: its
    outcome is not in progress; when resuming, it carries the identifier
    given and an empty spectator URL; on a fresh game, the identifier and
    the spectator URL of the one game created. *)
Theorem run_game_result_is_final fuel model_id resume_id w g w' tr :
  run_game elapse fuel client agent_fn model_id resume_id
           max_invalid_actions on_step w
  = (Ok (Some g), w', tr) ->
  is_InProgressOutcome (outcome g) = false
  /\ match resume_id with
     | Some gid => game_id g = gid /\ spectator_url g = ""
     | None =>
         exists game,
           created_games tr = [game]
           /\ game_id g = created_game_id game
           /\ spectator_url g = created_spectator_url game
     end.
Proof.
  unfold run_game, bind, call, lift, ret, GameResult_init.
  destruct resume_id as [gid |].
  - destruct (games_get client gid w) as [[state | e] w1]; [| discriminate].
    destruct (is_InProgressOutcome (state_outcome state)) eqn:Ho; simpl.
    + pose proof (loop_invariant fuel gid "" (state_observation state) 0 w1)
        as Hl.
      destruct (loop _ _ _ _ _ _ _ _ _ _ w1) as [[x w2] t2].
      intros H. inversion H; subst.
      destruct Hl as (_ & _ & Hfin & Hid & Hurl). auto.
    + intros H. inversion H; subst. simpl. auto.
  - destruct (games_create client model_id w) as [[game | e] w1];
      [| discriminate].
    pose proof (loop_invariant fuel (created_game_id game)
                  (created_spectator_url game) (created_observation game)
                  0 w1) as Hl.
    destruct (loop _ _ _ _ _ _ _ _ _ _ w1) as [[x w2] t2].
    intros H. inversion H; subst.
    destruct Hl as ((_ & _ & _ & Hc) & _ & Hg & Hid & Hurl).
    split; [exact Hg |]. exists game. simpl. rewrite Hc. auto.
Qed.

(** X2.  In every run, what is submitted is what the decision function
    returned: the same actions, each once, in the same order, all for the
    one game of the run (the game resumed, or the game created); the
    decision function is called once before every submit, and at most
    once more. *)
Theorem run_game_submits_agent_outputs fuel model_id resume_id w :
  let tr := snd (run_game elapse fuel client agent_fn model_id resume_id
                          max_invalid_actions on_step w) in
  match resume_id with
  | Some gid => submits tr = map (pair gid) (agent_outputs tr)
  | None =>
      match created_games tr with
      | [game] =>
          submits tr = map (pair (created_game_id game)) (agent_outputs tr)
      | _ => submits tr = [] /\ agent_calls tr = []
      end
  end
  /\ (length (submits tr) <= length (agent_calls tr)
      <= S (length (submits tr)))%nat.
Proof.
  unfold run_game, bind, call, lift, ret, GameResult_init.
  destruct resume_id as [gid |].
  - destruct (games_get client gid w) as [[state | e] w1];
      [| simpl; split; [reflexivity | lia]].
    destruct (is_InProgressOutcome (state_outcome state)); simpl;
      [| split; [reflexivity | lia]].
    pose proof (loop_invariant fuel gid "" (state_observation state) 0 w1)
      as Hl.
    destruct (loop _ _ _ _ _ _ _ _ _ _ w1) as [[x w2] t2].
    destruct Hl as ((Hs & _) & Hlen & _). simpl. auto.
  - destruct (games_create client model_id w) as [[game | e] w1];
      [| simpl; split; [auto | lia]].
    pose proof (loop_invariant fuel (created_game_id game)
                  (created_spectator_url game) (created_observation game)
                  0 w1) as Hl.
    destruct (loop _ _ _ _ _ _ _ _ _ _ w1) as [[x w2] t2].
    destruct Hl as ((Hs & _ & _ & Hc) & Hlen & _). simpl.
    rewrite Hc. auto.
Qed.

(** X3.  [run_game] sleeps exactly after the submits rejected as rate
    limited, once each, in order, with [time.sleep] and for the
    retry-after of the rejection; it never sleeps otherwise. *)
Theorem run_game_sleeps_on_rate_limits fuel model_id resume_id w :
  let tr := snd (run_game elapse fuel client agent_fn model_id resume_id
                          max_invalid_actions on_step w) in
  sleeps tr = map (pair time_sleep_call) (rate_limits tr).
Proof.
  assert (Hpair : forall t,
             turn_invariant time_sleep_call "" "" t \/
             (map snd (sleeps t) = rate_limits t
              /\ map fst (sleeps t)
                 = repeat time_sleep_call (length (rate_limits t))) ->
             sleeps t = map (pair time_sleep_call) (rate_limits t)).
  { intros t [(_ & H1 & H2 & _) | [H1 H2]];
      rewrite <- H1 in *; clear H1;
      induction (sleeps t) as [| [p z] l IH]; simpl in *; try reflexivity;
      inversion H2; subst; f_equal; auto. }
  unfold run_game, bind, call, lift, ret, GameResult_init.
  destruct resume_id as [gid |].
  - destruct (games_get client gid w) as [[state | e] w1]; [| reflexivity].
    destruct (is_InProgressOutcome (state_outcome state)); simpl;
      [| reflexivity].
    pose proof (loop_invariant fuel gid "" (state_observation state) 0 w1)
      as Hl.
    destruct (loop _ _ _ _ _ _ _ _ _ _ w1) as [[x w2] t2].
    destruct Hl as ((_ & H1 & H2 & _) & _). simpl. apply Hpair. auto.
  - destruct (games_create client model_id w) as [[game | e] w1];
      [| reflexivity].
    pose proof (loop_invariant fuel (created_game_id game)
                  (created_spectator_url game) (created_observation game)
                  0 w1) as Hl.
    destruct (loop _ _ _ _ _ _ _ _ _ _ w1) as [[x w2] t2].
    destruct Hl as ((_ & H1 & H2 & _) & _). simpl. apply Hpair. auto.
Qed.

(** X4.  What the runner has no clause for is raised as it is: a failure
    of the fetch or of the create call ends [run_game] before the decision
    function is called, and a submit that fails with anything but an
    invalid action, a rate limit or a game over ends the loop at once,
    without a retry and without the step-callback. *)
Theorem unclassified_errors_propagate :
  (forall fuel model_id gid w e w1,
      games_get client gid w = (Raise e, w1) ->
      run_game elapse fuel client agent_fn model_id (Some gid)
               max_invalid_actions on_step w
      = (Raise e, w1, [EvGamesGet gid (Raise e)]))
  /\ (forall fuel model_id w e w1,
      games_create client model_id w = (Raise e, w1) ->
      run_game elapse fuel client agent_fn model_id None
               max_invalid_actions on_step w
      = (Raise e, w1, [EvGamesCreate model_id (Raise e)]))
  /\ (forall fuel gid url o ci w a w1 e w2,
      agent_fn o w = (Ok a, w1) ->
      games_action client gid a w1 = (Raise e, w2) ->
      caught_by_loop e = false ->
      loop elapse (S fuel) client agent_fn gid url max_invalid_actions
           on_step o ci w
      = (Raise e, w2, [EvAgentFn o (Ok a); EvGamesAction gid a (Raise e)])).
Proof.
  split; [| split].
  - intros fuel model_id gid w e w1 Hg.
    unfold run_game, bind, call. rewrite Hg. reflexivity.
  - intros fuel model_id w e w1 Hc.
    unfold run_game, bind, call. rewrite Hc. reflexivity.
  - intros fuel gid url o ci w a w1 e w2 Ha Hs He.
    rewrite loop_unroll.
    unfold iteration, bind, attempt, call, ret, raise.
    rewrite Ha. simpl. rewrite Hs. simpl.
    destruct e; try discriminate He; reflexivity.
Qed.

Lemma asyncio_sleep_answer_waits secs w :
  secs < 2 ^ 1024 - 2 ^ 970 ->
  asyncio_sleep_answer elapse secs w = elapse (Z.max 0 secs) w.
Proof.
  intros Hr. unfold asyncio_sleep_answer, fits_float.
  destruct (secs <=? 0) eqn:H0.
  - apply Z.leb_le in H0. rewrite Z.max_l by lia. reflexivity.
  - apply Z.leb_gt in H0. rewrite Z.max_r by lia.
    replace (secs <? 2 ^ 1024 - 2 ^ 970) with true
      by (symmetry; apply Z.ltb_lt; exact Hr).
    reflexivity.
Qed.

(** X5.  In [async_run_game] a submit rejected as rate limited is
    followed by [asyncio.sleep] on its retry-after.  Below
    [2 ^ 1024 - 2 ^ 970], negative values included, the sleep raises
    nothing of its own: the wait is for the retry-after, or for nothing
    when that is negative; when the wait returns, the loop goes on with
    the same observation and the same counter of consecutive invalid
    actions, and what the wait raises ends the loop.  From
    [2 ^ 1024 - 2 ^ 970] up the retry-after has no [float]: the sleep
    raises [OverflowError] and the loop ends. *)
Theorem async_rate_limit_retries_unless_overflow
    (aclient : AsyncCrawlerClient (W := W))
    fuel gid url o ci w a w1 s m secs w2 :
  agent_fn o w = (Ok a, w1) ->
  async_games_action aclient gid a w1 = (Raise (RateLimitError s m secs), w2) ->
  let asked := [EvAgentFn o (Ok a);
                EvGamesAction gid a (Raise (RateLimitError s m secs))] in
  (secs < 2 ^ 1024 - 2 ^ 970 ->
   (forall w3,
       elapse (Z.max 0 secs) w2 = (Ok tt, w3) ->
       async_loop elapse (S fuel) aclient agent_fn gid url
                  max_invalid_actions on_step o ci w
       = after (asked ++ [EvSleep asyncio_sleep_call secs (Ok tt)])
               (async_loop elapse fuel aclient agent_fn gid url
                           max_invalid_actions on_step o ci w3))
   /\ (forall e w3,
         elapse (Z.max 0 secs) w2 = (Raise e, w3) ->
         async_loop elapse (S fuel) aclient agent_fn gid url
                    max_invalid_actions on_step o ci w
         = (Raise e, w3,
            asked ++ [EvSleep asyncio_sleep_call secs (Raise e)])))
  /\ (2 ^ 1024 - 2 ^ 970 <= secs ->
      async_loop elapse (S fuel) aclient agent_fn gid url
                 max_invalid_actions on_step o ci w
      = (Raise (OverflowError "int too large to convert to float"), w2,
         asked ++ [EvSleep asyncio_sleep_call secs
                     (Raise (OverflowError
                               "int too large to convert to float"))])).
Proof.
  intros Ha Hs asked.
  assert (Hb : async_iteration elapse aclient agent_fn gid url
                 max_invalid_actions on_step o ci w
               = match asyncio_sleep_answer elapse secs w2 with
                 | (Ok _, w3) =>
                     (Ok (Continue o ci), w3,
                      asked ++ [EvSleep asyncio_sleep_call secs (Ok tt)])
                 | (Raise e, w3) =>
                     (Raise e, w3,
                      asked ++ [EvSleep asyncio_sleep_call secs (Raise e)])
                 end).
  { unfold async_iteration, bind, attempt, ret, raise, asyncio_sleep, call.
    rewrite Ha. cbn -[asyncio_sleep_answer]. rewrite Hs.
    cbn -[asyncio_sleep_answer].
    destruct (asyncio_sleep_answer elapse secs w2) as [[[] | e] w3];
      reflexivity. }
  simpl async_loop. unfold bind. rewrite Hb. clear Hb.
  split; [intros Hr; rewrite (asyncio_sleep_answer_waits _ _ Hr); split |].
  - intros w3 ->.
    destruct (async_loop elapse fuel aclient agent_fn gid url
                         max_invalid_actions on_step o ci w3)
      as [[x w4] t4].
    reflexivity.
  - intros e w3 ->. reflexivity.
  - intros Hr. unfold asyncio_sleep_answer, fits_float.
    replace (secs <=? 0) with false
      by (symmetry; apply Z.leb_gt;
          apply Z.lt_le_trans with (m := 2 ^ 1024 - 2 ^ 970);
          [reflexivity | exact Hr]).
    replace (secs <? 2 ^ 1024 - 2 ^ 970) with false
      by (symmetry; apply Z.ltb_ge; exact Hr).
    reflexivity.
Qed.

(** X6.  A rate limit does not break a run of invalid actions: when the
    coming turns are all rejected, as invalid actions or as rate limited
    (with a retry-after that [time.sleep] can hold, from 0 to 9223372036,
    and a wait that returns), in any order, and the last
    rejection is the one that brings the number of invalid actions to
    [max_invalid_actions], the loop raises that [InvalidActionError],
    having asked the decision function once per rejection, always on the
    same observation. *)
Theorem invalid_run_survives_rate_limits kinds :
  forall k gid url o ci w,
    rejected_turns elapse (kinds ++ [as_invalid_action])
                   client agent_fn gid o w ->
    ci + Z.of_nat (S (invalid_among kinds)) = max_invalid_actions ->
    exists s m c w' tr,
      loop elapse (S (length kinds) + k) client agent_fn gid url
           max_invalid_actions on_step o ci w
      = (Raise (InvalidActionError s m c), w', tr)
      /\ agent_calls tr = repeat o (S (length kinds))
      /\ length (rate_limits tr) = (length kinds - invalid_among kinds)%nat.
Proof.
  induction kinds as [| kind kinds IH]; intros k gid url o ci w Hrej Hmax.
  - destruct Hrej as (a & w1 & s & m & w2 & Ha & c & Hs & _).
    exists s, m, c, w2. eexists.
    change (1 + k)%nat with (S k).
    rewrite loop_unroll, (body_invalid_action _ _ _ _ _ _ _ _ _ _ _ _ _ _ _ _ Ha Hs).
    replace (ci + 1 >=? max_invalid_actions) with true
      by (symmetry; apply Z.geb_le; simpl in Hmax; lia).
    split; [reflexivity | split; reflexivity].
  - destruct Hrej as (a & w1 & s & m & w2 & Ha & Hkind).
    change (S (length (kind :: kinds)) + k)%nat
      with (S (S (length kinds) + k)).
    destruct kind.
    + destruct Hkind as (c & Hs & Hrest).
      destruct (IH k gid url o (ci + 1) w2 Hrest
                   ltac:(simpl in Hmax; lia))
        as (s' & m' & c' & w' & tr & Hloop & Hcalls & Hrate).
      exists s', m', c', w'. eexists.
      rewrite loop_unroll,
        (body_invalid_action _ _ _ _ _ _ _ _ _ _ _ _ _ _ _ _ Ha Hs).
      replace (ci + 1 >=? max_invalid_actions) with false
        by (symmetry; rewrite Z.geb_leb; apply Z.leb_gt; simpl in Hmax; lia).
      rewrite Hloop. simpl.
      split; [reflexivity | split].
      * simpl. rewrite Hcalls. reflexivity.
      * simpl. exact Hrate.
    + destruct Hkind as (secs & Hs & Hr & w3 & Hw & Hrest).
      destruct (IH k gid url o ci w3 Hrest ltac:(simpl in Hmax; lia))
        as (s' & m' & c' & w' & tr & Hloop & Hcalls & Hrate).
      exists s', m', c', w'. eexists.
      rewrite loop_unroll,
        (body_rate_limit _ _ _ _ _ _ _ _ _ _ _ _ _ _ _ _ Ha Hs),
        (time_sleep_answer_in_range elapse _ _ Hr), Hw.
      rewrite Hloop. simpl.
      split; [reflexivity | split].
      * simpl. rewrite Hcalls. reflexivity.
      * simpl. rewrite Hrate.
        assert (invalid_among kinds <= length kinds)%nat.
        { clear. induction kinds as [| [] l IHl]; simpl; lia. }
        lia.
Qed.

End RunnerInvariants.

(** The victory of the tests on a fresh game: the result is final and
    carries what the create call returned. *)
Lemma fresh_game_result_is_final :
  is_InProgressOutcome (CompletedOutcome victory 5 100) = false
  /\ exists game,
      created_games
        (snd (play 3 None (new_game [in_progress 2; completed_victory 3] [] [])))
      = [game]
      /\ "game-1" = created_game_id game
      /\ spectate_game_1 = created_spectator_url game.
Proof.
  eapply (run_game_result_is_final
            tick scripted_client scripted_agent default_max_invalid_actions
            None 3%nat None None
            (new_game [in_progress 2; completed_victory 3] [] [])
            {| game_id := "game-1"; spectator_url := spectate_game_1;
               outcome := CompletedOutcome victory 5 100 |}
            (mid_game [] [] [])).
  vm_compute. reflexivity.
Defined.

(** A 401 on the submit is no business of the loop: it is raised. *)
Lemma unauthorized_submit_propagates :
  turns 3 (Some scripted_on_step)
        (mid_game [ErrorResponse 401 (<["error" := JStr "Invalid API key"]> ∅) ∅]
                  [] [])
  = (Raise (AuthenticationError 401 (JStr "Invalid API key")),
     mid_game [] [] [],
     [EvAgentFn (observation_at 1) (Ok (Wait None));
      EvGamesAction "game-1" (Wait None)
        (Raise (AuthenticationError 401 (JStr "Invalid API key")))]).
Proof.
  refine (proj2 (proj2
    (unclassified_errors_propagate
       tick scripted_client scripted_agent default_max_invalid_actions
       (Some scripted_on_step)))
    2%nat "game-1" spectate_game_1 (observation_at 1) 0
    (mid_game [ErrorResponse 401 (<["error" := JStr "Invalid API key"]> ∅) ∅]
              [] [])
    (Wait None)
    (mid_game [ErrorResponse 401 (<["error" := JStr "Invalid API key"]> ∅) ∅]
              [] [])
    (AuthenticationError 401 (JStr "Invalid API key"))
    (mid_game [] [] []) eq_refl _ eq_refl).
  vm_compute. reflexivity.
Defined.

(** The rate limit with retry-after -1 that ends [run_game] is slept
    through by [async_run_game]. *)
Lemma async_negative_retry_after_retries :
  async_loop tick 2 scripted_async_client scripted_agent "game-1"
             spectate_game_1 default_max_invalid_actions None
             (observation_at 1) 0
             (mid_game [rate_limited "-1"; completed_victory 2] [] [])
  = after [EvAgentFn (observation_at 1) (Ok (Wait None));
           EvGamesAction "game-1" (Wait None)
             (Raise (RateLimitError 429 (JStr "Rate limited") (-1)));
           EvSleep asyncio_sleep_call (-1) (Ok tt)]
          (async_loop tick 1 scripted_async_client scripted_agent "game-1"
                      spectate_game_1 default_max_invalid_actions None
                      (observation_at 1) 0
                      (later 0 (mid_game [completed_victory 2] [] []))).
Proof.
  refine (proj1 (proj1
            (async_rate_limit_retries_unless_overflow
               tick scripted_agent default_max_invalid_actions None
               scripted_async_client
               1%nat "game-1" spectate_game_1 (observation_at 1) 0
               (mid_game [rate_limited "-1"; completed_victory 2] [] [])
               (Wait None)
               (mid_game [rate_limited "-1"; completed_victory 2] [] [])
               429 (JStr "Rate limited") (-1)
               (mid_game [completed_victory 2] [] []) eq_refl _) _)
            (later 0 (mid_game [completed_victory 2] [] [])) eq_refl).
  - vm_compute. reflexivity.
  - reflexivity.
Defined.

(** Two invalid actions with a rate limit in between, threshold 2. *)
Lemma invalid_rate_limit_invalid_raises :
  exists s m c w' tr,
    loop tick 3 scripted_client scripted_agent "game-1" spectate_game_1
         2 None (observation_at 1) 0
         (mid_game [invalid_action; rate_limited "1"; invalid_action] [] [])
    = (Raise (InvalidActionError s m c), w', tr)
    /\ agent_calls tr = repeat (observation_at 1) 3
    /\ length (rate_limits tr) = 1%nat.
Proof.
  refine (invalid_run_survives_rate_limits
            tick scripted_client scripted_agent 2 None
            [as_invalid_action; as_rate_limited]
            0%nat "game-1" spectate_game_1 (observation_at 1) 0
            (mid_game [invalid_action; rate_limited "1"; invalid_action] [] [])
            _ eq_refl).
  simpl.
  do 5 eexists. split; [reflexivity |].
  eexists. split; [vm_compute; reflexivity |].
  do 5 eexists. split; [reflexivity |].
  eexists. split; [vm_compute; reflexivity |]. split; [lia |].
  eexists. split; [reflexivity |].
  do 5 eexists. split; [reflexivity |].
  eexists. split; [vm_compute; reflexivity |]. exact I.
Defined.

(* ===================================================================== *)
(** * Properties of the client *)

Lemma rstrip_slash_empty s :
  rstrip_slash s = EmptyString -> exists n, s = slashes n.
Proof.
  induction s as [| ch s IH]; simpl; intros H.
  - exists 0%nat. reflexivity.
  - destruct (rstrip_slash s) eqn:Hr; [| discriminate].
    destruct (Ascii.eqb ch "/") eqn:Hc; [| discriminate].
    apply Ascii.eqb_eq in Hc. subst ch.
    destruct (IH eq_refl) as [n ->]. exists (S n). reflexivity.
Qed.

Lemma append_nil_l (t : string) : EmptyString +:+ t = t.
Proof. reflexivity. Qed.

Lemma append_cons ch (s t : string) :
  String ch s +:+ t = String ch (s +:+ t).
Proof. reflexivity. Qed.

Lemma rstrip_slash_spec s :
  (exists n, s = rstrip_slash s +:+ slashes n)
  /\ last_char (rstrip_slash s) <> Some "/"%char.
Proof.
  induction s as [| ch s [[n IHn] IHl]]; simpl.
  - split; [exists 0%nat; reflexivity | discriminate].
  - destruct (rstrip_slash s) as [| ch' kept] eqn:Hr;
      rewrite ?Hr in IHn, IHl.
    + rewrite append_nil_l in IHn.
      destruct (Ascii.eqb ch "/") eqn:Hc.
      * apply Ascii.eqb_eq in Hc. subst ch.
        split; [| discriminate]. exists (S n).
        rewrite append_nil_l. simpl. congruence.
      * split.
        -- exists n. rewrite append_cons, append_nil_l. congruence.
        -- simpl. intros [= ->]. discriminate Hc.
    + split; [| exact IHl].
      exists n. rewrite append_cons. congruence.
Qed.

(** X7.  Building a client without a key, none given and none in the
    environment, raises [AuthenticationError] 401 before the HTTP client
    is built.  Otherwise the key given wins over the environment (an empty
    one included) and the HTTP client is built with the [Authorization]
    header ["Bearer "] followed by it: what the library raises there
    leaves [__init__] as it is, and when it returns, the base URL kept is
    the one given without its trailing slashes. *)
Theorem client_init_needs_a_key httpx_Client environ api_key base_url :
  (api_key = None /\ environ !! ENV_KEY = None ->
   exists message,
     CrawlerClient_init httpx_Client environ api_key base_url
     = Raise (AuthenticationError 401 message))
  /\ (forall key,
        api_key = Some key
        \/ (api_key = None /\ environ !! ENV_KEY = Some key) ->
        build_headers key !! "Authorization" = Some ("Bearer " +:+ key)
        /\ (forall e,
              httpx_Client (build_headers key) = Raise e ->
              CrawlerClient_init httpx_Client environ api_key base_url
              = Raise e)
        /\ (httpx_Client (build_headers key) = Ok tt ->
            exists session,
              CrawlerClient_init httpx_Client environ api_key base_url
              = Ok session
              /\ session_headers session = build_headers key
              /\ (exists n,
                    base_url = session_base_url session +:+ slashes n)
              /\ last_char (session_base_url session) <> Some "/"%char)).
Proof.
  unfold CrawlerClient_init, resolve_api_key. split.
  - intros [-> ->]. eauto.
  - intros key Hkey.
    assert (Hresolved :
              match api_key with
              | Some key => Ok key
              | None =>
                  match environ !! ENV_KEY with
                  | Some env_key => Ok env_key
                  | None =>
                      Raise (AuthenticationError 401
                               (JStr ("No API key provided. Pass api_key= or set "
                                        +:+ ENV_KEY
                                        +:+ " environment variable.")))
                  end
              end = Ok key).
    { destruct Hkey as [-> | [-> ->]]; reflexivity. }
    rewrite Hresolved. split; [reflexivity | split].
    + intros e ->. reflexivity.
    + intros ->. eexists. split; [reflexivity |].
      split; [reflexivity |]. apply rstrip_slash_spec.
Qed.

Section HttpFacts.

Context {W : Type}.
Variable httpx_request :
  gmap string string -> Request -> W -> res Response * W.
Variable validate_python : json -> res Outcome.
Variable validate_CreateGameResponse : json -> res CreateGameResponse.
Variable validate_GameStateResponse : json -> res GameStateResponse.
Variable validate_ActionResponse : json -> res ActionResponse.

Lemma map_error_response_raises status fields hdrs :
  exists e, map_error_response validate_python status fields hdrs = Raise e.
Proof.
  destruct (map_error_response validate_python status fields hdrs)
    as [[] | e]. eauto.
Qed.


Lemma fallback_body_error text dflt :
  dict_get (<["error" := JStr text]> ∅) "error" dflt = JStr text.
Proof. unfold dict_get. rewrite lookup_insert_eq. reflexivity. Qed.

Lemma fallback_body_other text key dflt :
  key <> "error" ->
  dict_get (<["error" := JStr text]> ∅) key dflt = dflt.
Proof.
  intros Hk. unfold dict_get.
  rewrite lookup_insert_ne by congruence. rewrite lookup_empty. reflexivity.
Qed.


Variable elapse : Z -> W -> res unit * W.
Variable agent_fn : agent (W := W).
Variable max_invalid_actions : Z.
Variable on_step : option (step_callback (W := W)).


End HttpFacts.

(** A client built without a key in an empty environment. *)
Lemma client_without_key_fails :
  exists message,
    CrawlerClient_init (fun _ => Ok tt) ∅ None DEFAULT_BASE_URL
    = Raise (AuthenticationError 401 message).
Proof.
  apply (proj1 (client_init_needs_a_key (fun _ => Ok tt) ∅ None
                                        DEFAULT_BASE_URL)).
  split; reflexivity.
Defined.




(* ===================================================================== *)
(** * Properties of the actions on the wire *)

Lemma Direction_value_inj d1 d2 :
  Direction_value d1 = Direction_value d2 -> d1 = d2.
Proof. destruct d1, d2; simpl; intros H; try reflexivity; discriminate H. Qed.

(** What is under each key of a dumped action. *)
Lemma model_dump_lookup a :
  model_dump a !! "action" = Some (JStr (action_name a))
  /\ model_dump a !! "reasoning" = JStr <$> action_reasoning a
  /\ model_dump a !! "direction"
     = (fun d => JStr (Direction_value d)) <$> action_direction a
  /\ model_dump a !! "distance" = JInt <$> action_distance a
  /\ model_dump a !! "itemType" = JStr <$> action_item_type a.
Proof.
  destruct a as [d r | d r | r | r | i r | i r | i r | r | d n r];
    destruct r; repeat split; reflexivity.
Qed.

(** X11.  Two actions that are sent as the same JSON object are the same
    action: the wire format loses nothing, the reasoning included. *)
Theorem model_dump_inj a1 a2 : model_dump a1 = model_dump a2 -> a1 = a2.
Proof.
  intros H.
  destruct (model_dump_lookup a1) as (Hn1 & Hr1 & Hd1 & Hk1 & Hi1).
  destruct (model_dump_lookup a2) as (Hn2 & Hr2 & Hd2 & Hk2 & Hi2).
  rewrite H in Hn1, Hr1, Hd1, Hk1, Hi1.
  rewrite Hn2 in Hn1. rewrite Hr2 in Hr1. rewrite Hd2 in Hd1.
  rewrite Hk2 in Hk1. rewrite Hi2 in Hi1. clear H Hn2 Hr2 Hd2 Hk2 Hi2.
  assert (Hr : action_reasoning a1 = action_reasoning a2).
  { destruct (action_reasoning a1), (action_reasoning a2);
      simpl in Hr1; congruence. }
  clear Hr1.
  destruct a1, a2; simpl in *; try discriminate Hn1;
    repeat match goal with
           | H : Some _ = Some _ |- _ => injection H as H
           | H : Direction_value _ = Direction_value _ |- _ =>
               apply Direction_value_inj in H
           end;
    congruence.
Qed.


Lemma same_dump_same_move :
  model_dump (Move NORTH (Some "explore")) = model_dump (Move NORTH (Some "explore"))
  /\ Move NORTH (Some "explore") = Move NORTH (Some "explore").
Proof. split; [reflexivity | apply model_dump_inj; reflexivity]. Defined.

(* ===================================================================== *)
(** * Properties of the queries of an observation *)

Lemma first_tile_at_spec x y tiles :
  match first_tile_at x y tiles with
  | Some tile =>
      exists before after,
        tiles = before ++ tile :: after
        /\ tile_x tile = x /\ tile_y tile = y
        /\ Forall (fun other => (tile_x other, tile_y other) <> (x, y)) before
  | None => Forall (fun other => (tile_x other, tile_y other) <> (x, y)) tiles
  end.
Proof.
  induction tiles as [| tile rest IH]; simpl; [constructor |].
  destruct ((tile_x tile =? x) && (tile_y tile =? y)) eqn:Hat.
  - apply andb_true_iff in Hat as [Hx Hy].
    apply Z.eqb_eq in Hx, Hy.
    exists [], rest. repeat split; auto.
  - assert (Hne : (tile_x tile, tile_y tile) <> (x, y)).
    { intros Heq. injection Heq as Hx Hy.
      apply Z.eqb_eq in Hx, Hy. rewrite Hx, Hy in Hat. discriminate. }
    destruct (first_tile_at x y rest) as [found |].
    + destruct IH as (before & after & -> & Hx & Hy & Hb).
      exists (tile :: before), after. repeat split; auto.
    + constructor; assumption.
Qed.

(** X13.  [tile_at] gives the first visible tile with the coordinates asked
    for, whatever comes after it in the list, and [None] exactly when no
    visible tile has them; the items at the player's feet are those of that
    first tile at the player's position, so each of them lies on a visible
    tile there. *)
Theorem tile_at_first_match obs x y :
  match tile_at obs x y with
  | Some tile =>
      exists before after,
        visible_tiles obs = before ++ tile :: after
        /\ tile_x tile = x /\ tile_y tile = y
        /\ Forall (fun other => (tile_x other, tile_y other) <> (x, y)) before
  | None =>
      Forall (fun other => (tile_x other, tile_y other) <> (x, y))
             (visible_tiles obs)
  end
  /\ (forall item,
        item ∈ items_at_feet obs ->
        exists tile,
          tile_at obs (position (player obs)).1 (position (player obs)).2
          = Some tile
          /\ tile ∈ visible_tiles obs
          /\ (tile_x tile, tile_y tile) = position (player obs)
          /\ item ∈ tile_items tile).
Proof.
  split; [apply first_tile_at_spec |].
  intros item. unfold items_at_feet.
  destruct (position (player obs)) as [px py] eqn:Hpos. simpl.
  pose proof (first_tile_at_spec px py (visible_tiles obs)) as Hspec.
  unfold tile_at.
  destruct (first_tile_at px py (visible_tiles obs)) as [tile |].
  - destruct Hspec as (before & after & Heq & Hx & Hy & _).
    intros Hitem. exists tile. repeat split; auto.
    + rewrite Heq. apply list_elem_of_In, in_elt.
    + congruence.
  - intros Hitem. inversion Hitem.
Qed.

Lemma elem_of_monsters obs tile monster :
  (tile, monster) ∈ monsters obs
  <-> tile ∈ visible_tiles obs /\ tile_monster tile = Some monster.
Proof.
  unfold monsters. rewrite list_elem_of_omap. split.
  - intros (other & Hin & Hm).
    destruct (tile_monster other) eqn:Ho; [| discriminate].
    injection Hm as -> ->. auto.
  - intros [Hin Hm]. exists tile. rewrite Hm. auto.
Qed.

Lemma monsters_nil obs :
  monsters obs = []
  <-> Forall (fun tile => tile_monster tile = None) (visible_tiles obs).
Proof.
  unfold monsters. induction (visible_tiles obs) as [| tile rest IH]; simpl.
  - split; [constructor | reflexivity].
  - destruct (tile_monster tile) eqn:Hm; simpl.
    + split; [discriminate |]. intros Hall. inversion Hall. congruence.
    + rewrite IH. split.
      * intros Hall. constructor; assumption.
      * intros Hall. inversion Hall. assumption.
Qed.

Lemma nearest_scan_spec px py found :
  forall seen result best_dist,
    nearest_of px py seen result ->
    best_dist = from_option (fun pick => Finite (manhattan px py pick.1))
                            Infinity result ->
    nearest_of px py (seen ++ found)
               (nearest_scan px py found result best_dist).
Proof.
  induction found as [| [tile monster] rest IH];
    intros seen result best_dist Hinv Hbest; simpl.
  - rewrite app_nil_r. assumption.
  - replace (seen ++ (tile, monster) :: rest)
      with ((seen ++ [(tile, monster)]) ++ rest)
      by (rewrite <- app_assoc; reflexivity).
    destruct (closer (manhattan px py tile) best_dist) eqn:Hc.
    + apply IH; [| reflexivity].
      exists seen, []. split; [reflexivity |]. split; [| constructor].
      destruct result as [pick |]; simpl in Hinv, Hbest.
      * subst best_dist. simpl in Hc. apply Z.ltb_lt in Hc.
        destruct Hinv as (before & after & -> & Hb & Ha).
        apply Forall_app. split; [| constructor].
        -- eapply Forall_impl; [exact Hb |]. simpl. intros; lia.
        -- simpl. lia.
        -- eapply Forall_impl; [exact Ha |]. simpl. intros; lia.
      * subst seen. constructor.
    + destruct result as [pick |]; simpl in Hbest; subst best_dist;
        [| discriminate Hc].
      simpl in Hc. apply Z.ltb_ge in Hc.
      apply IH; [| reflexivity].
      destruct Hinv as (before & after & -> & Hb & Ha).
      exists before, (after ++ [(tile, monster)]).
      split; [rewrite <- app_assoc; reflexivity |].
      split; [assumption |].
      apply Forall_app. split; [assumption |].
      constructor; [simpl; lia | constructor].
Qed.

(** X14.  [nearest_monster] gives [None] exactly when no visible tile holds
    a monster; otherwise it gives a visible tile with the monster on it, at
    the least Manhattan distance from the player among all the monsters
    seen, and among those at that distance the first in the order of
    [visible_tiles]. *)
Theorem nearest_monster_is_first_closest obs :
  match nearest_monster obs with
  | None => Forall (fun tile => tile_monster tile = None) (visible_tiles obs)
  | Some (tile, monster) =>
      tile ∈ visible_tiles obs
      /\ tile_monster tile = Some monster
      /\ exists before after,
          monsters obs = before ++ (tile, monster) :: after
          /\ Forall (fun other =>
                       manhattan (position (player obs)).1
                                 (position (player obs)).2 tile
                       < manhattan (position (player obs)).1
                                   (position (player obs)).2 other.1)
                    before
          /\ Forall (fun other =>
                       manhattan (position (player obs)).1
                                 (position (player obs)).2 tile
                       <= manhattan (position (player obs)).1
                                    (position (player obs)).2 other.1)
                    after
  end.
Proof.
  unfold nearest_monster.
  destruct (position (player obs)) as [px py]. simpl.
  pose proof (nearest_scan_spec px py (monsters obs) [] None Infinity
                eq_refl eq_refl) as Hspec.
  simpl in Hspec.
  destruct (nearest_scan px py (monsters obs) None Infinity)
    as [[tile monster] |]; simpl in Hspec.
  - destruct Hspec as (before & after & Heq & Hb & Ha).
    assert (Hin : (tile, monster) ∈ monsters obs)
      by (rewrite Heq; apply list_elem_of_In, in_elt).
    apply elem_of_monsters in Hin as [Hin Hm].
    split; [assumption |]. split; [assumption |].
    exists before, after. auto.
  - apply monsters_nil. assumption.
Qed.

Lemma walkable_iff_not_wall tile_type :
  tile_type ∈ WALKABLE_TILES <-> tile_type <> WALL.
Proof.
  unfold WALKABLE_TILES. rewrite list_elem_of_In.
  destruct tile_type; simpl; split; intros H;
    try congruence; try (auto 10; fail); intuition discriminate.
Qed.

Lemma offsets_are_neighbours direction :
  Z.max (Z.abs (DIRECTION_OFFSETS direction).1)
        (Z.abs (DIRECTION_OFFSETS direction).2) = 1.
Proof. destruct direction; reflexivity. Qed.

(** X15.  [can_move] answers [True] exactly when the first visible tile at
    the player's position plus the offset of the direction exists, has no
    monster on it and is anything but a wall; that tile is then one of the
    eight neighbours of the player's position. *)
Theorem can_move_iff_free_neighbour obs direction :
  let target :=
    ((position (player obs)).1 + (DIRECTION_OFFSETS direction).1,
     (position (player obs)).2 + (DIRECTION_OFFSETS direction).2) in
  (can_move obs direction = true
   <-> exists tile,
        tile_at obs target.1 target.2 = Some tile
        /\ tile_monster tile = None
        /\ tile_type tile <> WALL)
  /\ (can_move obs direction = true ->
      exists tile,
        tile ∈ visible_tiles obs
        /\ (tile_x tile, tile_y tile) = target
        /\ Z.max (Z.abs (tile_x tile - (position (player obs)).1))
                 (Z.abs (tile_y tile - (position (player obs)).2)) = 1).
Proof.
  intros target.
  assert (Hiff : can_move obs direction = true
                 <-> exists tile,
                      tile_at obs target.1 target.2 = Some tile
                      /\ tile_monster tile = None
                      /\ tile_type tile <> WALL).
  { unfold can_move, target.
    destruct (position (player obs)) as [px py].
    destruct (DIRECTION_OFFSETS direction) as [dx dy]. simpl.
    destruct (tile_at obs (px + dx) (py + dy)) as [tile |].
    - destruct (tile_monster tile) eqn:Hm.
      + split; [discriminate |]. intros (other & Heq & Hn & _). congruence.
      + rewrite bool_decide_eq_true, walkable_iff_not_wall. split.
        * intros Hw. exists tile. auto.
        * intros (other & Heq & _ & Hw). congruence.
    - split; [discriminate |]. intros (other & Heq & _). discriminate. }
  split; [exact Hiff |].
  intros Hcan. apply Hiff in Hcan as (tile & Hat & _ & _).
  pose proof (first_tile_at_spec target.1 target.2 (visible_tiles obs))
    as Hspec.
  unfold tile_at in Hat. rewrite Hat in Hspec.
  destruct Hspec as (before & after & Heq & Hx & Hy & _).
  exists tile. split; [rewrite Heq; apply list_elem_of_In, in_elt |].
  split; [rewrite Hx, Hy; reflexivity |].
  pose proof (offsets_are_neighbours direction) as Hn.
  unfold target in Hx, Hy. simpl in Hx, Hy. rewrite Hx, Hy.
  replace ((position (player obs)).1 + (DIRECTION_OFFSETS direction).1
           - (position (player obs)).1)
    with (DIRECTION_OFFSETS direction).1 by lia.
  replace ((position (player obs)).2 + (DIRECTION_OFFSETS direction).2
           - (position (player obs)).2)
    with (DIRECTION_OFFSETS direction).2 by lia.
  exact Hn.
Qed.

(* ===================================================================== *)
(** * Properties of the diagnostics *)

Lemma diagnostics_offsets_lookup direction :
  diagnostics_DIRECTION_OFFSETS !! Direction_value direction
  = Some (DIRECTION_OFFSETS direction).
Proof. destruct direction; reflexivity. Qed.

(** X16.  The two offset tables are the same table: the one of the
    diagnostics has an entry for the name of each direction, equal to the
    one of the models, and no other entry; no two directions share an
    offset, and the offsets are exactly the eight neighbours of the
    origin.  So the tile the diagnostics describe is the tile [can_move]
    tests, and [can_move] is [False] exactly when that tile is not
    visible, holds a monster or is a wall. *)
Theorem direction_offset_tables_agree :
  (forall direction,
      diagnostics_DIRECTION_OFFSETS !! Direction_value direction
      = Some (DIRECTION_OFFSETS direction))
  /\ (forall name,
        is_Some (diagnostics_DIRECTION_OFFSETS !! name) ->
        exists direction, name = Direction_value direction)
  /\ (forall d1 d2, DIRECTION_OFFSETS d1 = DIRECTION_OFFSETS d2 -> d1 = d2)
  /\ (forall dx dy,
        (exists direction, DIRECTION_OFFSETS direction = (dx, dy))
        <-> Z.max (Z.abs dx) (Z.abs dy) = 1)
  /\ (forall obs direction,
        diagnosed_target obs direction
        = tile_at obs
            ((position (player obs)).1 + (DIRECTION_OFFSETS direction).1)
            ((position (player obs)).2 + (DIRECTION_OFFSETS direction).2)
        /\ (can_move obs direction = false
            <-> match diagnosed_target obs direction with
                | None => True
                | Some tile =>
                    tile_monster tile <> None \/ tile_type tile = WALL
                end)).
Proof.
  split; [apply diagnostics_offsets_lookup |].
  split; [| split; [| split]].
  - intros name [off Hoff]. unfold diagnostics_DIRECTION_OFFSETS in Hoff.
    repeat (rewrite lookup_insert in Hoff; case_decide;
            [subst name;
             first [ exists NORTH; reflexivity | exists SOUTH; reflexivity
                   | exists EAST; reflexivity | exists WEST; reflexivity
                   | exists NORTHEAST; reflexivity
                   | exists NORTHWEST; reflexivity
                   | exists SOUTHEAST; reflexivity
                   | exists SOUTHWEST; reflexivity ] |]).
    rewrite lookup_empty in Hoff. discriminate.
  - intros d1 d2 H. destruct d1, d2; simpl in H;
      first [reflexivity | discriminate H].
  - intros dx dy. split.
    + intros [direction H]. destruct direction; injection H as <- <-;
        reflexivity.
    + intros H.
      assert (Hx : dx = -1 \/ dx = 0 \/ dx = 1) by lia.
      assert (Hy : dy = -1 \/ dy = 0 \/ dy = 1) by lia.
      destruct Hx as [-> | [-> | ->]], Hy as [-> | [-> | ->]];
        first [ discriminate H
              | exists NORTH; reflexivity | exists SOUTH; reflexivity
              | exists EAST; reflexivity | exists WEST; reflexivity
              | exists NORTHEAST; reflexivity | exists NORTHWEST; reflexivity
              | exists SOUTHEAST; reflexivity | exists SOUTHWEST; reflexivity ].
  - intros obs direction.
    assert (Htarget :
              diagnosed_target obs direction
              = tile_at obs
                  ((position (player obs)).1 + (DIRECTION_OFFSETS direction).1)
                  ((position (player obs)).2 + (DIRECTION_OFFSETS direction).2)).
    { unfold diagnosed_target.
      rewrite diagnostics_offsets_lookup. simpl.
      destruct (position (player obs)) as [px py].
      destruct (DIRECTION_OFFSETS direction) as [dx dy]. reflexivity. }
    split; [exact Htarget |].
    rewrite Htarget. unfold can_move.
    destruct (position (player obs)) as [px py].
    destruct (DIRECTION_OFFSETS direction) as [dx dy]. simpl.
    destruct (tile_at obs (px + dx) (py + dy)) as [tile |]; [| tauto].
    destruct (tile_monster tile) eqn:Hm.
    + split; intros _; [left; discriminate | reflexivity].
    + rewrite bool_decide_eq_false, walkable_iff_not_wall. split.
      * intros Hw. right. destruct (tile_type tile); try reflexivity;
          exfalso; apply Hw; discriminate.
      * intros [Hc | Hw] Hn; [apply Hc; reflexivity | contradiction].
Qed.

Lemma tile_char_single tile :
  exists c, tile_char tile = Ok (String c EmptyString)
            /\ String c EmptyString <> "@".
Proof.
  destruct tile as [tile |]; simpl.
  - destruct (tile_monster tile).
    + eexists. split; [reflexivity | discriminate].
    + destruct (tile_type tile); eexists; (split; [reflexivity | discriminate]).
  - eexists. split; [reflexivity | discriminate].
Qed.

Lemma grid_cell_two obs px py row_dy col_dx :
  exists c, grid_cell obs px py row_dy col_dx
            = Ok (String " " (String c EmptyString))
            /\ (c = "@"%char <-> col_dx = 0 /\ row_dy = 0).
Proof.
  unfold grid_cell.
  destruct ((col_dx =? 0) && (row_dy =? 0)) eqn:Hc.
  - apply andb_true_iff in Hc as [Hx Hy]. apply Z.eqb_eq in Hx, Hy.
    eexists. split; [reflexivity |]. tauto.
  - destruct (tile_char_single (tile_at obs (px + col_dx) (py + row_dy)))
      as (c & -> & Hne).
    exists c. split; [reflexivity |]. split.
    + intros ->. contradiction Hne. reflexivity.
    + intros [-> ->]. discriminate Hc.
Qed.

(** The cells of the grid, one at a time. *)
Ltac grid_cells :=
  repeat match goal with
         | |- context [grid_cell ?obs ?px ?py ?row_dy ?col_dx] =>
             let c := fresh "c" in
             let Hc := fresh "Hc" in
             destruct (grid_cell_two obs px py row_dy col_dx)
               as (c & -> & Hc);
             first [ assert (c = "@"%char) by (apply Hc; lia); subst c
                   | assert (c <> "@"%char)
                       by (intros Heq; apply Hc in Heq; lia) ];
             clear Hc
         end.

Ltac no_player_at n :=
  do 20 (destruct n as [| n];
         [vm_compute; first [discriminate | congruence] |]);
  vm_compute; discriminate.

(** X17.  The legend of the grid never fails and is unambiguous: every
    tile is drawn with one character, never with the player's ["@"]; a
    tile type has its own entry in [_TILE_CHARS], so that the first letter
    of its name is never used; two tiles without a monster are drawn alike
    only if they have the same type, and neither like a monster nor like
    an unseen tile.  The grid is then always five printed rows of the
    same width, with the player in the middle of the third and nowhere
    else. *)
Theorem grid_legend_is_unambiguous :
  (forall tile,
      exists c, tile_char tile = Ok (String c EmptyString)
                /\ String c EmptyString <> "@")
  /\ (forall tile_type,
        is_Some (TILE_CHARS !! TileType_value tile_type))
  /\ (forall tile other,
        tile_monster tile = None -> tile_monster other = None ->
        (tile_char (Some tile) = tile_char (Some other)
         <-> tile_type tile = tile_type other)
        /\ tile_char (Some tile) <> Ok "M"
        /\ tile_char (Some tile) <> Ok "?")
  /\ (forall obs px py,
        exists r1 r2 r3 r4 r5,
          print_grid obs px py = Ok [r1; r2; r3; r4; r5]
          /\ Forall (fun row => String.length row = 20%nat)
                    [r1; r2; r3; r4; r5]
          /\ (forall n, String.get n r3 = Some "@"%char <-> n = 15%nat)
          /\ Forall (fun row => forall n, String.get n row <> Some "@"%char)
                    [r1; r2; r4; r5]).
Proof.
  split; [apply tile_char_single |]. split; [| split].
  - intros tile_type. destruct tile_type; eexists; reflexivity.
  - intros tile other Ht Ho. simpl. rewrite Ht, Ho. repeat split.
    + destruct (tile_type tile), (tile_type other); simpl; intros H;
        first [reflexivity | discriminate H].
    + intros ->. reflexivity.
    + destruct (tile_type tile); discriminate.
    + destruct (tile_type tile); discriminate.
  - intros obs px py.
    cbv beta iota zeta fix delta [print_grid grid_rows grid_row].
    grid_cells. cbv beta iota.
    do 5 eexists. split; [reflexivity |].
    split; [repeat constructor |]. split.
    + intros n. split.
      * intros Hget.
        do 15 (destruct n as [| n];
               [exfalso; vm_compute in Hget;
                first [discriminate Hget | congruence] |]).
        destruct n as [| n]; [reflexivity |].
        exfalso.
        do 4 (destruct n as [| n];
              [vm_compute in Hget; first [discriminate Hget | congruence] |]).
        vm_compute in Hget. discriminate Hget.
      * intros ->. reflexivity.
    + repeat constructor; intros n; no_player_at n.
Qed.
